(** * A shallow embedding of src/ipset.c (apfree_wifidog)

    The netlink message builders of [ipset.c] write a stack buffer
    [char buffer[BUFF_SZ] = {0}] through raw pointers.  The buffer is modelled
    as a write log [mem]: a list of (offset, byte) pairs, newest first, read
    back by the newest entry for an offset (zero when never written, as the
    buffer is zero-initialised).  A write is never refused, just as in C: an
    offset outside [0, BUFF_SZ) is recorded, and that overrun is what the
    bounds theorems rule out.  Multi-byte host-order fields are laid out
    little-endian.

    [nlh->nlmsg_len] is the u32 field at offset 0 of the buffer.  The code only
    ever touches it as [nlh->nlmsg_len] and every other write of the builders
    lands at offset 4 or above, so the model keeps it as the field
    [nlmsg_len] of [msgbuf] and lays its four bytes out when the buffer is
    handed to [sendto] ([msg_bytes]). *)

From Stdlib Require Import ZArith List Bool Lia.
Import ListNotations.
Open Scope Z_scope.

(** ** Constants of ipset.c and of the Linux headers it uses *)

Definition NFNL_SUBSYS_IPSET : Z := 6.
Definition IPSET_ATTR_ETHER : Z := 17.
Definition IPSET_ATTR_TIMEOUT : Z := 6.
Definition IPSET_ATTR_DATA : Z := 7.
Definition IPSET_ATTR_IP : Z := 1.
Definition IPSET_ATTR_MAC : Z := 4.
Definition IPSET_ATTR_IPADDR_IPV4 : Z := 1.
Definition IPSET_ATTR_IPADDR_IPV6 : Z := 2.
Definition IPSET_ATTR_PROTOCOL : Z := 1.
Definition IPSET_ATTR_SETNAME : Z := 2.
Definition IPSET_CMD_ADD : Z := 9.
Definition IPSET_CMD_DEL : Z := 10.
Definition IPSET_CMD_FLUSH : Z := 4.
Definition IPSET_MAXNAMELEN : Z := 32.
Definition IPSET_PROTOCOL : Z := 6.
Definition NFNETLINK_V0 : Z := 0.
Definition NLA_F_NESTED : Z := Z.shiftl 1 15.
Definition NLA_F_NET_BYTEORDER : Z := Z.shiftl 1 14.
Definition INADDRSZ : Z := 4.
Definition INETHSZ : Z := 6.
Definition BUFF_SZ : Z := 256.

(** Linux values. *)
Definition AF_INET : Z := 2.
Definition NLM_F_REQUEST : Z := 1.
Definition EINTR : Z := 4.
Definition EAGAIN : Z := 11.
Definition EWOULDBLOCK : Z := EAGAIN.
Definition ENAMETOOLONG : Z := 36.

(** [sizeof] of the structures written into the buffer. *)
Definition sizeof_nlmsghdr : Z := 16.
Definition sizeof_my_nlattr : Z := 4.
Definition sizeof_my_nfgenmsg : Z := 4.

(** [#define NL_ALIGN(len) (((len)+3) & ~(3))] *)
Definition NL_ALIGN (len : Z) : Z := Z.land (len + 3) (Z.lnot 3).

(** Conversions to the C field widths. *)
Definition u16 (x : Z) : Z := x mod 2 ^ 16.
Definition u32 (x : Z) : Z := x mod 2 ^ 32.

(** [htons] on a little-endian host. *)
Definition htons (x : Z) : Z :=
  Z.lor (Z.shiftl (Z.land x 255) 8) (Z.land (Z.shiftr x 8) 255).

(** ** The buffer *)

Definition mem := list (Z * Z).

Fixpoint read (m : mem) (i : Z) : Z :=
  match m with
  | [] => 0
  | (o, v) :: t => if o =? i then v else read t i
  end.

(** A write of the log lands in [lo, hi). *)
Definition in_range (lo hi : Z) (w : Z * Z) : Prop := lo <= fst w < hi.

(** A [__u8] store. *)
Definition store8 (m : mem) (o v : Z) : mem := (o, Z.land v 255) :: m.

(** A [__u16] store, low byte first. *)
Definition store16 (m : mem) (o v : Z) : mem :=
  store8 (store8 m o (Z.land v 255)) (o + 1) (Z.land (Z.shiftr v 8) 255).

Definition read16 (m : mem) (o : Z) : Z := read m o + 256 * read m (o + 1).

(** [memcpy(dst, src, n)], [src] given as the [n] bytes it copies. *)
Fixpoint memcpy (m : mem) (dst : Z) (src : list Z) : mem :=
  match src with
  | [] => m
  | c :: t => memcpy (store8 m dst c) (dst + 1) t
  end.

(** A C string: the bytes at the pointer, the terminating NUL implicit at
    the end of the list ([strlen] stops at the first zero byte). *)
Fixpoint strlen (s : list Z) : nat :=
  match s with
  | [] => O
  | c :: t => if c =? 0 then O else S (strlen t)
  end.

(** The message buffer: the write log and [nlh->nlmsg_len]. *)
Record msgbuf := { buf : mem; nlmsg_len : Z }.

(** ** [add_attr] (lines 119-127) *)

Definition add_attr (nlh : msgbuf) (type len : Z) (data : list Z) : msgbuf :=
  let attr := NL_ALIGN (nlmsg_len nlh) in
  let payload_len := u16 (NL_ALIGN sizeof_my_nlattr + len) in
  let m := store16 (buf nlh) (attr + 2) (u16 type) in          (* attr->nla_type *)
  let m := store16 m attr payload_len in                        (* attr->nla_len *)
  let m := memcpy m (attr + NL_ALIGN sizeof_my_nlattr) (firstn (Z.to_nat len) data) in
  {| buf := m; nlmsg_len := u32 (nlmsg_len nlh + NL_ALIGN payload_len) |}.

(** ** The message prefix common to the three builders *)

(** Generic header and [nfgenmsg] sub-header (lines 153-162, 199-208,
    234-243): [cmd] is the value stored in [nlmsg_type], [af] the one stored
    in [nfgen_family]. *)
Definition msg_header (cmd af : Z) : msgbuf :=
  let len := NL_ALIGN sizeof_nlmsghdr in
  let m := store16 [] 4 (u16 cmd) in                            (* nlmsg_type *)
  let m := store16 m 6 NLM_F_REQUEST in                         (* nlmsg_flags *)
  let nfg := len in
  let len := u32 (len + NL_ALIGN sizeof_my_nfgenmsg) in
  let m := store8 m nfg af in                                   (* nfgen_family *)
  let m := store8 m (nfg + 1) NFNETLINK_V0 in                   (* version *)
  let m := store16 m (nfg + 2) (htons 0) in                     (* res_id *)
  {| buf := m; nlmsg_len := len |}.

(** Header, protocol attribute and set-name attribute (up to lines 166,
    212, 247). *)
Definition msg_prefix (cmd af : Z) (setname : list Z) : msgbuf :=
  let nlh := msg_header cmd af in
  let nlh := add_attr nlh IPSET_ATTR_PROTOCOL 1 [IPSET_PROTOCOL] in
  add_attr nlh IPSET_ATTR_SETNAME (Z.of_nat (strlen setname) + 1) (setname ++ [0]).

(** ** The address builder (body of [new_add_to_ipset], lines 153-177) *)

(** Lines 167-169 and 170-172: reserve an attribute header, remember its
    offset, tag its type. *)
Definition open_nested (nlh : msgbuf) (type : Z) : Z * msgbuf :=
  let nested := NL_ALIGN (nlmsg_len nlh) in
  let len := u32 (nlmsg_len nlh + NL_ALIGN sizeof_my_nlattr) in
  (nested, {| buf := store16 (buf nlh) (nested + 2) (u16 type); nlmsg_len := len |}).

(** Lines 176 and 177: [nested->nla_len = buffer + NL_ALIGN(len) - nested]. *)
Definition close_nested (nlh : msgbuf) (nested : Z) : msgbuf :=
  {| buf := store16 (buf nlh) nested (u16 (NL_ALIGN (nlmsg_len nlh) - nested));
     nlmsg_len := nlmsg_len nlh |}.

Definition add_cmd (remove : Z) : Z :=
  Z.lor (if remove =? 0 then IPSET_CMD_ADD else IPSET_CMD_DEL)
        (Z.shiftl NFNL_SUBSYS_IPSET 8).

Definition addr_type (af : Z) : Z :=
  Z.lor (if af =? AF_INET then IPSET_ATTR_IPADDR_IPV4 else IPSET_ATTR_IPADDR_IPV6)
        NLA_F_NET_BYTEORDER.

Definition build_add (setname ipaddr : list Z) (af remove : Z) : msgbuf :=
  let nlh := msg_prefix (add_cmd remove) af setname in
  let '(nested0, nlh) := open_nested nlh (Z.lor NLA_F_NESTED IPSET_ATTR_DATA) in
  let '(nested1, nlh) := open_nested nlh (Z.lor NLA_F_NESTED IPSET_ATTR_IP) in
  let nlh := add_attr nlh (addr_type af) INADDRSZ ipaddr in
  let nlh := close_nested nlh nested1 in
  close_nested nlh nested0.

(** ** The hardware-address builder (body of [new_add_mac_to_ipset]) *)

Definition mac_cmd : Z := Z.lor IPSET_CMD_ADD (Z.shiftl NFNL_SUBSYS_IPSET 8).

Definition build_mac (setname eth_addr : list Z) (af : Z) : msgbuf :=
  let nlh := msg_prefix mac_cmd af setname in
  add_attr nlh IPSET_ATTR_ETHER INETHSZ eth_addr.

(** ** The flush builder (body of [flush_ipset]) *)

Definition flush_cmd : Z := Z.lor IPSET_CMD_FLUSH (Z.shiftl NFNL_SUBSYS_IPSET 8).

Definition build_flush (setname : list Z) : msgbuf :=
  msg_prefix flush_cmd AF_INET setname.

(** The bytes [sendto(ipset_sock, buffer, nlh->nlmsg_len, ...)] hands to the
    kernel. *)
Definition byte_at (nlh : msgbuf) (i : Z) : Z :=
  if i <? 4 then Z.land (Z.shiftr (nlmsg_len nlh) (8 * i)) 255
  else read (buf nlh) i.

Definition msg_bytes (nlh : msgbuf) : list Z :=
  map (fun k => byte_at nlh (Z.of_nat k)) (seq 0 (Z.to_nat (nlmsg_len nlh))).

(** A little-endian [__u16] field of a received message. *)
Definition get16 (msg : list Z) (i : Z) : Z :=
  nth (Z.to_nat i) msg 0 + 256 * nth (Z.to_nat (i + 1)) msg 0.

(** A little-endian [__u32] field of a received message. *)
Definition get32 (msg : list Z) (i : Z) : Z :=
  get16 msg i + 65536 * get16 msg (i + 2).

(** The payload of the attribute whose header is at offset [off] of a
    received message, read as a netlink parser reads it: [nla_len - 4]
    bytes after the 4-byte header. *)
Definition attr_payload (msg : list Z) (off : Z) : list Z :=
  firstn (Z.to_nat (get16 msg off - 4)) (skipn (Z.to_nat (off + 4)) msg).

(** The set name ["blocklist"] of the spec's scenarios. *)
Definition blocklist : list Z := [98; 108; 111; 99; 107; 108; 105; 115; 116].

(** ** Sending: [retry_send] (lines 91-116) and the send loops *)

(** The process state [ipset.c] reads and writes: the [static int retries]
    of [retry_send] and [errno]. *)
Record proc := { retries : Z; errno : Z }.

(** [nanosleep] is modelled as returning normally without touching [errno]. *)
Definition retry_send (rc : Z) (p : proc) : Z * proc :=
  if negb (rc =? -1) then (0, {| retries := 0; errno := 0 |})
  else
    let '(again, p) :=
      if (errno p =? EAGAIN) || (errno p =? EWOULDBLOCK) then
        let old := retries p in                                   (* retries++ *)
        (old <? 1000, {| retries := old + 1; errno := errno p |})
      else (false, p) in
    if again then (1, p)
    else
      let p := {| retries := 0; errno := errno p |} in
      if errno p =? EINTR then (1, p) else (0, p).

(** What one [sendto] call on the netlink socket does: accept the message,
    or fail with an [errno]. *)
Inductive send_result := SendOk | SendFail (e : Z).

Definition sendto (r : send_result) (msg : list Z) (p : proc) : Z * proc :=
  match r with
  | SendOk => (Z.of_nat (length msg), p)
  | SendFail e => (-1, {| retries := retries p; errno := e |})
  end.

(** [while (retry_send(sendto(...))) ;] against a socket whose successive
    [sendto] outcomes are [env].  It returns the messages handed to
    [sendto] (one per attempt) and the final process state, or [None] when
    [env] runs out while the loop still goes on. *)
Fixpoint send_loop (env : list send_result) (msg : list Z) (p : proc)
  : option (list (list Z) * proc) :=
  match env with
  | [] => None
  | r :: env' =>
      let '(rc, p) := sendto r msg p in
      let '(again, p) := retry_send rc p in
      if again =? 0 then Some ([msg], p)
      else match send_loop env' msg p with
           | Some (sent, p') => Some (msg :: sent, p')
           | None => None
           end
  end.

(** The end of a public operation: its return value, the messages it handed
    to [sendto] and the final process state; [Stuck] when the send loop had
    not finished with the given [env]; [UB] on undefined behaviour. *)
Inductive outcome :=
| Ret (rv : Z) (sent : list (list Z)) (p : proc)
| Stuck
| UB.

(** Lines 179-182 (and 215-219, 249-253). *)
Definition send_and_report (env : list send_result) (msg : list Z) (p : proc) : outcome :=
  match send_loop env msg p with
  | Some (sent, p') => Ret (if errno p' =? 0 then 0 else -1) sent p'
  | None => Stuck
  end.

(** A [const char *] that may be [NULL]. *)
Definition cstring := option (list Z).

Definition name_too_long (p : proc) : outcome :=
  Ret (-1) [] {| retries := retries p; errno := ENAMETOOLONG |}.

(** [new_add_to_ipset] (lines 138-183); [ipaddr] are the 4 bytes of the
    [struct in_addr]. *)
Definition new_add_to_ipset (setname : cstring) (ipaddr : list Z) (af remove : Z)
  (env : list send_result) (p : proc) : outcome :=
  match setname with
  | None => UB                                          (* strlen(NULL) *)
  | Some s =>
      if Z.of_nat (strlen s) >=? IPSET_MAXNAMELEN then name_too_long p
      else send_and_report env (msg_bytes (build_add s ipaddr af remove)) p
  end.

(** [new_add_mac_to_ipset] (lines 185-220); [timeout] is never read. *)
Definition new_add_mac_to_ipset (setname : cstring) (eth_addr : list Z) (af timeout : Z)
  (env : list send_result) (p : proc) : outcome :=
  match setname with
  | None => UB                                          (* strlen(NULL) *)
  | Some s =>
      if Z.of_nat (strlen s) >=? IPSET_MAXNAMELEN then name_too_long p
      else send_and_report env (msg_bytes (build_mac s eth_addr af)) p
  end.

(** [flush_ipset] (lines 222-255). *)
Definition flush_ipset (setname : cstring) (env : list send_result) (p : proc) : outcome :=
  match setname with
  | None => name_too_long p
  | Some s =>
      if Z.of_nat (strlen s) >=? IPSET_MAXNAMELEN then name_too_long p
      else send_and_report env (msg_bytes (build_flush s)) p
  end.

(** [add_to_ipset] (lines 257-277).  The validators [is_valid_ip] and
    [is_valid_mac] (util.c) and the libc parsers [inet_aton] and
    [ether_aton] are parameters; a parser's failure ([0], [NULL]) is
    [None]. *)
Section Dispatch.
Variable is_valid_ip is_valid_mac : list Z -> bool.
Variable inet_aton ether_aton : list Z -> option (list Z).

Definition add_to_ipset (setname : cstring) (val : list Z) (flag : Z)
  (env : list send_result) (p : proc) : outcome :=
  let af := AF_INET in
  if is_valid_ip val then
    match inet_aton val with
    | None => Ret (-1) [] p
    | Some addr => new_add_to_ipset setname addr af flag env p
    end
  else if is_valid_mac val then
    match ether_aton val with
    | None => Ret (-1) [] p
    | Some addr => new_add_mac_to_ipset setname addr af flag env p
    end
  else Ret (-1) [] p.
End Dispatch.

(** * Lemmas about the model *)

(** ** Arithmetic of [NL_ALIGN] and the field widths *)

Lemma NL_ALIGN_div (x : Z) : NL_ALIGN x = 4 * ((x + 3) / 4).
Proof.
  unfold NL_ALIGN.
  change (Z.lnot 3) with (Z.lnot (Z.ones 2)).
  rewrite <- Z.ldiff_land, Z.ldiff_ones_r by lia.
  rewrite Z.shiftl_mul_pow2, Z.shiftr_div_pow2 by lia.
  change (2 ^ 2) with 4. lia.
Qed.

Ltac zalign :=
  repeat rewrite NL_ALIGN_div in *; Z.div_mod_to_equations; lia.

Lemma NL_ALIGN_bounds (x : Z) : x <= NL_ALIGN x <= x + 3 /\ NL_ALIGN x mod 4 = 0.
Proof. zalign. Qed.

Lemma NL_ALIGN_aligned (x : Z) : x mod 4 = 0 -> NL_ALIGN x = x.
Proof. zalign. Qed.

Lemma u16_small (x : Z) : 0 <= x < 2 ^ 16 -> u16 x = x.
Proof. intros. unfold u16. apply Z.mod_small. lia. Qed.

Lemma u32_small (x : Z) : 0 <= x < 2 ^ 32 -> u32 x = x.
Proof. intros. unfold u32. apply Z.mod_small. lia. Qed.

(** ** Reading the write log *)

Lemma read_store8 (m : mem) (o v i : Z) :
  read (store8 m o v) i = if o =? i then Z.land v 255 else read m i.
Proof. reflexivity. Qed.

Lemma read_store16_other (m : mem) (o v i : Z) :
  i <> o -> i <> o + 1 -> read (store16 m o v) i = read m i.
Proof.
  intros H1 H2. unfold store16. rewrite !read_store8.
  destruct (Z.eqb_spec (o + 1) i); [lia|].
  destruct (Z.eqb_spec o i); [lia|]. reflexivity.
Qed.

Lemma land_255_mod (v : Z) : Z.land v 255 = v mod 256.
Proof. change 255 with (Z.ones 8). rewrite Z.land_ones by lia. reflexivity. Qed.

Lemma read16_store16 (m : mem) (o v : Z) : read16 (store16 m o v) o = u16 v.
Proof.
  unfold read16, store16, u16. rewrite !read_store8.
  rewrite !Z.eqb_refl. destruct (Z.eqb_spec (o + 1) o); [lia|].
  rewrite !land_255_mod, Z.shiftr_div_pow2 by lia.
  rewrite !Z.mod_mod by lia.
  change (2 ^ 16) with (256 * 256). change (2 ^ 8) with 256.
  rewrite Z.rem_mul_r by lia. reflexivity.
Qed.

Lemma read16_store16_other (m : mem) (o v i : Z) :
  i + 1 < o \/ o + 1 < i -> read16 (store16 m o v) i = read16 m i.
Proof.
  intros H. unfold read16. rewrite !read_store16_other by lia. reflexivity.
Qed.

Lemma read_memcpy_out (src : list Z) : forall (m : mem) (dst i : Z),
  i < dst \/ dst + Z.of_nat (length src) <= i ->
  read (memcpy m dst src) i = read m i.
Proof.
  induction src as [|c t IH]; intros m dst i H; simpl; [reflexivity|].
  rewrite IH by (simpl in H; lia). rewrite read_store8.
  destruct (Z.eqb_spec dst i); [simpl in H; lia | reflexivity].
Qed.

Lemma read16_memcpy_out (src : list Z) (m : mem) (dst i : Z) :
  i + 1 < dst \/ dst + Z.of_nat (length src) <= i ->
  read16 (memcpy m dst src) i = read16 m i.
Proof.
  intros H. unfold read16. rewrite !read_memcpy_out by lia. reflexivity.
Qed.

(** ** Which offsets a write touches *)

Lemma Forall_store16 (P : Z * Z -> Prop) (m : mem) (o v : Z) :
  (forall x, P (o, x)) -> (forall x, P (o + 1, x)) -> Forall P m ->
  Forall P (store16 m o v).
Proof. intros. unfold store16, store8. repeat constructor; auto. Qed.

Lemma Forall_memcpy (lo hi : Z) (src : list Z) : forall (m : mem) (dst : Z),
  lo <= dst -> dst + Z.of_nat (length src) <= hi ->
  Forall (in_range lo hi) m -> Forall (in_range lo hi) (memcpy m dst src).
Proof.
  induction src as [|c t IH]; intros m dst H1 H2 Hm; simpl; [assumption|].
  simpl in H2. apply IH; [lia|lia|].
  constructor; [unfold in_range; simpl; lia | assumption].
Qed.

Lemma length_firstn_le (n : nat) (l : list Z) : (length (firstn n l) <= n)%nat.
Proof. rewrite length_firstn. lia. Qed.

Lemma read16_store8_other (m : mem) (o v i : Z) :
  i <> o -> i + 1 <> o -> read16 (store8 m o v) i = read16 m i.
Proof.
  intros H1 H2. unfold read16. rewrite !read_store8.
  destruct (Z.eqb_spec o i); [lia|]. destruct (Z.eqb_spec o (i + 1)); [lia|].
  reflexivity.
Qed.

(** ** [add_attr] *)

Section AddAttr.
Variable nlh : msgbuf.
Variables type len : Z.
Variable data : list Z.
Let attr := NL_ALIGN (nlmsg_len nlh).

Lemma add_attr_len :
  0 <= nlmsg_len nlh -> 0 <= len -> 4 + len < 2 ^ 16 ->
  nlmsg_len nlh + len + 7 < 2 ^ 32 ->
  nlmsg_len (add_attr nlh type len data) = nlmsg_len nlh + NL_ALIGN (4 + len).
Proof.
  intros. unfold add_attr. cbn [nlmsg_len].
  change (NL_ALIGN sizeof_my_nlattr) with 4.
  rewrite u16_small by lia.
  pose proof (NL_ALIGN_bounds (4 + len)).
  apply u32_small. lia.
Qed.

Lemma add_attr_read_below (i : Z) :
  i < attr -> read (buf (add_attr nlh type len data)) i = read (buf nlh) i.
Proof.
  intros H. unfold add_attr. cbn [buf]. fold attr.
  change (NL_ALIGN sizeof_my_nlattr) with 4.
  rewrite read_memcpy_out by lia.
  rewrite !read_store16_other by lia. reflexivity.
Qed.

Lemma add_attr_nla_len :
  read16 (buf (add_attr nlh type len data)) attr = u16 (4 + len).
Proof.
  unfold add_attr. cbn [buf]. fold attr.
  change (NL_ALIGN sizeof_my_nlattr) with 4.
  rewrite read16_memcpy_out by lia. rewrite read16_store16.
  unfold u16. rewrite Z.mod_mod by lia. reflexivity.
Qed.

Lemma add_attr_nla_type :
  read16 (buf (add_attr nlh type len data)) (attr + 2) = u16 type.
Proof.
  unfold add_attr. cbn [buf]. fold attr.
  change (NL_ALIGN sizeof_my_nlattr) with 4.
  rewrite read16_memcpy_out by lia.
  rewrite read16_store16_other by lia. rewrite read16_store16.
  unfold u16. rewrite Z.mod_mod by lia. reflexivity.
Qed.

Lemma add_attr_in_bounds (lo hi : Z) :
  lo <= attr -> attr + 4 + len <= hi -> 0 <= len ->
  Forall (in_range lo hi) (buf nlh) ->
  Forall (in_range lo hi) (buf (add_attr nlh type len data)).
Proof.
  intros H1 H2 H3 Hm. unfold add_attr. cbn [buf]. fold attr.
  change (NL_ALIGN sizeof_my_nlattr) with 4.
  pose proof (length_firstn_le (Z.to_nat len) data).
  apply Forall_memcpy; [lia|lia|].
  apply Forall_store16; [intros; unfold in_range; simpl; lia ..|].
  apply Forall_store16; [intros; unfold in_range; simpl; lia ..|].
  exact Hm.
Qed.
End AddAttr.

(** ** The nested frames *)

Lemma open_nested_offset (nlh : msgbuf) (type : Z) :
  fst (open_nested nlh type) = NL_ALIGN (nlmsg_len nlh).
Proof. reflexivity. Qed.

Lemma open_nested_len (nlh : msgbuf) (type : Z) :
  0 <= nlmsg_len nlh -> nlmsg_len nlh + 4 < 2 ^ 32 ->
  nlmsg_len (snd (open_nested nlh type)) = nlmsg_len nlh + 4.
Proof. intros. apply u32_small. lia. Qed.

Lemma open_nested_read_other (nlh : msgbuf) (type i : Z) :
  i <> NL_ALIGN (nlmsg_len nlh) + 2 -> i <> NL_ALIGN (nlmsg_len nlh) + 3 ->
  read (buf (snd (open_nested nlh type))) i = read (buf nlh) i.
Proof. intros. cbn. apply read_store16_other; lia. Qed.

Lemma open_nested_type (nlh : msgbuf) (type : Z) :
  read16 (buf (snd (open_nested nlh type))) (NL_ALIGN (nlmsg_len nlh) + 2) = u16 type.
Proof.
  cbn. rewrite read16_store16. unfold u16. rewrite Z.mod_mod by lia. reflexivity.
Qed.

Lemma open_nested_in_bounds (nlh : msgbuf) (type lo hi : Z) :
  lo <= NL_ALIGN (nlmsg_len nlh) -> NL_ALIGN (nlmsg_len nlh) + 4 <= hi ->
  Forall (in_range lo hi) (buf nlh) ->
  Forall (in_range lo hi) (buf (snd (open_nested nlh type))).
Proof.
  intros. cbn. apply Forall_store16; [intros; unfold in_range; simpl; lia ..|].
  assumption.
Qed.

Lemma close_nested_nla_len (nlh : msgbuf) (nested : Z) :
  read16 (buf (close_nested nlh nested)) nested
  = u16 (NL_ALIGN (nlmsg_len nlh) - nested).
Proof.
  cbn. rewrite read16_store16. unfold u16. rewrite Z.mod_mod by lia. reflexivity.
Qed.

Lemma close_nested_read_other (nlh : msgbuf) (nested i : Z) :
  i <> nested -> i <> nested + 1 ->
  read (buf (close_nested nlh nested)) i = read (buf nlh) i.
Proof. intros. cbn. apply read_store16_other; lia. Qed.

Lemma close_nested_in_bounds (nlh : msgbuf) (nested lo hi : Z) :
  lo <= nested -> nested + 2 <= hi ->
  Forall (in_range lo hi) (buf nlh) ->
  Forall (in_range lo hi) (buf (close_nested nlh nested)).
Proof.
  intros. cbn. apply Forall_store16; [intros; unfold in_range; simpl; lia ..|].
  assumption.
Qed.

(** ** The message prefix *)

Lemma msg_header_len (cmd af : Z) : nlmsg_len (msg_header cmd af) = 20.
Proof. reflexivity. Qed.

Lemma msg_header_family (cmd af : Z) : read (buf (msg_header cmd af)) 16 = Z.land af 255.
Proof. reflexivity. Qed.

Lemma msg_header_type (cmd af : Z) : read16 (buf (msg_header cmd af)) 4 = u16 cmd.
Proof.
  unfold msg_header. cbn [buf]. change (NL_ALIGN sizeof_nlmsghdr) with 16.
  rewrite read16_store16_other by lia.
  rewrite !read16_store8_other by lia.
  rewrite read16_store16_other by lia.
  rewrite read16_store16. unfold u16. rewrite Z.mod_mod by lia. reflexivity.
Qed.

Lemma msg_header_in_bounds (cmd af : Z) :
  Forall (in_range 0 BUFF_SZ) (buf (msg_header cmd af)).
Proof.
  unfold msg_header. cbn [buf]. change (NL_ALIGN sizeof_nlmsghdr) with 16.
  repeat (apply Forall_store16 || apply Forall_cons); try apply Forall_nil;
    intros; unfold in_range, BUFF_SZ; simpl; lia.
Qed.

Lemma proto_len (cmd af : Z) :
  nlmsg_len (add_attr (msg_header cmd af) IPSET_ATTR_PROTOCOL 1 [IPSET_PROTOCOL]) = 28.
Proof. reflexivity. Qed.

Lemma msg_prefix_len_ge (cmd af : Z) (setname : list Z) :
  28 <= nlmsg_len (msg_prefix cmd af setname) < 2 ^ 17.
Proof.
  set (x := u16 (4 + (Z.of_nat (strlen setname) + 1))).
  assert (E : nlmsg_len (msg_prefix cmd af setname) = u32 (28 + NL_ALIGN x))
    by reflexivity.
  rewrite E.
  assert (0 <= x < 2 ^ 16) by (apply Z.mod_pos_bound; lia).
  pose proof (NL_ALIGN_bounds x).
  rewrite u32_small by lia. lia.
Qed.

Lemma msg_prefix_read_below (cmd af : Z) (setname : list Z) (i : Z) :
  i < 20 -> read (buf (msg_prefix cmd af setname)) i = read (buf (msg_header cmd af)) i.
Proof.
  intros H. unfold msg_prefix.
  rewrite add_attr_read_below by (rewrite proto_len; change (NL_ALIGN 28) with 28; lia).
  rewrite add_attr_read_below by (rewrite msg_header_len; change (NL_ALIGN 20) with 20; lia).
  reflexivity.
Qed.

Lemma read16_from_read (m1 m2 : mem) (i : Z) :
  read m1 i = read m2 i -> read m1 (i + 1) = read m2 (i + 1) -> read16 m1 i = read16 m2 i.
Proof. unfold read16. intros -> ->. reflexivity. Qed.

Lemma msg_prefix_type (cmd af : Z) (setname : list Z) :
  read16 (buf (msg_prefix cmd af setname)) 4 = u16 cmd.
Proof.
  rewrite <- (msg_header_type cmd af).
  apply read16_from_read; apply msg_prefix_read_below; lia.
Qed.

Lemma msg_prefix_family (cmd af : Z) (setname : list Z) :
  read (buf (msg_prefix cmd af setname)) 16 = Z.land af 255.
Proof. rewrite msg_prefix_read_below by lia. apply msg_header_family. Qed.

(** Under the name check, the prefix ends at [28 + NL_ALIGN (strlen + 5)]
    and stays in the buffer. *)
Section Prefix.
Variables (cmd af : Z) (setname : list Z).
Hypothesis Hname : Z.of_nat (strlen setname) < IPSET_MAXNAMELEN.

Lemma msg_prefix_len :
  nlmsg_len (msg_prefix cmd af setname) = 28 + NL_ALIGN (Z.of_nat (strlen setname) + 5).
Proof.
  unfold IPSET_MAXNAMELEN in Hname. unfold msg_prefix.
  rewrite add_attr_len; rewrite ?proto_len; try lia.
  f_equal. f_equal. lia.
Qed.

Lemma msg_prefix_in_bounds : Forall (in_range 0 BUFF_SZ) (buf (msg_prefix cmd af setname)).
Proof.
  unfold IPSET_MAXNAMELEN in Hname. unfold msg_prefix.
  apply add_attr_in_bounds; rewrite ?proto_len; change (NL_ALIGN 28) with 28;
    unfold BUFF_SZ; try lia.
  apply add_attr_in_bounds; rewrite ?msg_header_len; change (NL_ALIGN 20) with 20;
    unfold BUFF_SZ; try lia.
  apply msg_header_in_bounds.
Qed.
End Prefix.

Ltac zl := Z.div_mod_to_equations; lia.

(** ** The three builders *)

Lemma build_mac_read_below (setname eth_addr : list Z) (af i : Z) :
  i < 20 -> read (buf (build_mac setname eth_addr af)) i = read (buf (msg_header mac_cmd af)) i.
Proof.
  intros H. unfold build_mac.
  pose proof (msg_prefix_len_ge mac_cmd af setname).
  pose proof (NL_ALIGN_bounds (nlmsg_len (msg_prefix mac_cmd af setname))).
  rewrite add_attr_read_below by lia. apply msg_prefix_read_below; lia.
Qed.

Lemma build_mac_type (setname eth_addr : list Z) (af : Z) :
  read16 (buf (build_mac setname eth_addr af)) 4 = u16 mac_cmd.
Proof.
  rewrite <- (msg_header_type mac_cmd af).
  apply read16_from_read; apply build_mac_read_below; lia.
Qed.

Lemma build_flush_family (setname : list Z) :
  read (buf (build_flush setname)) 16 = AF_INET.
Proof. unfold build_flush. rewrite msg_prefix_family. reflexivity. Qed.

Section Builders.
Variables (setname ipaddr eth_addr : list Z) (af remove : Z).
Hypothesis Hname : Z.of_nat (strlen setname) < IPSET_MAXNAMELEN.

Let A := NL_ALIGN (Z.of_nat (strlen setname) + 5).
Let pre := msg_prefix (add_cmd remove) af setname.
Let o0 := open_nested pre (Z.lor NLA_F_NESTED IPSET_ATTR_DATA).
Let o1 := open_nested (snd o0) (Z.lor NLA_F_NESTED IPSET_ATTR_IP).
Let ad := add_attr (snd o1) (addr_type af) INADDRSZ ipaddr.

Lemma build_add_steps :
  build_add setname ipaddr af remove = close_nested (close_nested ad (fst o1)) (fst o0).
Proof. reflexivity. Qed.

Lemma A_facts : Z.of_nat (strlen setname) + 5 <= A <= 36 /\ A mod 4 = 0.
Proof.
  unfold IPSET_MAXNAMELEN in Hname. unfold A.
  pose proof (NL_ALIGN_bounds (Z.of_nat (strlen setname) + 5)). zl.
Qed.

Lemma pre_len : nlmsg_len pre = 28 + A.
Proof. apply msg_prefix_len. exact Hname. Qed.

Lemma o0_offset : fst o0 = 28 + A.
Proof.
  pose proof A_facts. unfold o0. rewrite open_nested_offset, pre_len.
  apply NL_ALIGN_aligned. zl.
Qed.

Lemma o1_offset : fst o1 = 32 + A.
Proof.
  pose proof A_facts. unfold o1, o0. rewrite open_nested_offset, open_nested_len, pre_len.
  - rewrite NL_ALIGN_aligned; zl.
  - rewrite pre_len. lia.
  - rewrite pre_len. lia.
Qed.

Lemma o0_len : nlmsg_len (snd o0) = 32 + A.
Proof.
  pose proof A_facts. unfold o0.
  rewrite open_nested_len; rewrite pre_len; lia.
Qed.

Lemma o1_len : nlmsg_len (snd o1) = 36 + A.
Proof.
  pose proof A_facts. unfold o1.
  rewrite open_nested_len; rewrite o0_len; lia.
Qed.

Lemma ad_len : nlmsg_len ad = 44 + A.
Proof.
  pose proof A_facts. unfold ad. unfold INADDRSZ.
  rewrite add_attr_len; rewrite ?o1_len; try lia.
  change (NL_ALIGN (4 + 4)) with 8. lia.
Qed.

Lemma build_add_len : nlmsg_len (build_add setname ipaddr af remove) = 44 + A.
Proof. rewrite build_add_steps. apply ad_len. Qed.

Lemma build_add_read_below (i : Z) :
  i < 20 -> read (buf (build_add setname ipaddr af remove)) i = read (buf pre) i.
Proof.
  intros H. pose proof A_facts.
  rewrite build_add_steps.
  rewrite !close_nested_read_other by (rewrite ?o0_offset, ?o1_offset; lia).
  unfold ad. rewrite add_attr_read_below by (rewrite o1_len, NL_ALIGN_aligned; zl).
  unfold o1. rewrite open_nested_read_other by (rewrite o0_len, NL_ALIGN_aligned; zl).
  unfold o0. rewrite open_nested_read_other
    by (rewrite pre_len, NL_ALIGN_aligned; zl).
  reflexivity.
Qed.

Lemma build_add_in_bounds :
  Forall (in_range 0 BUFF_SZ) (buf (build_add setname ipaddr af remove)).
Proof.
  pose proof A_facts. rewrite build_add_steps. unfold BUFF_SZ.
  apply close_nested_in_bounds; rewrite ?o0_offset; try lia.
  apply close_nested_in_bounds; rewrite ?o1_offset; try lia.
  unfold ad. apply add_attr_in_bounds;
    rewrite ?o1_len, ?NL_ALIGN_aligned; unfold INADDRSZ; try zl.
  unfold o1. apply open_nested_in_bounds; rewrite ?o0_len, ?NL_ALIGN_aligned; try zl.
  unfold o0. apply open_nested_in_bounds; rewrite ?pre_len, ?NL_ALIGN_aligned; try zl.
  apply msg_prefix_in_bounds. exact Hname.
Qed.

Lemma addr_attr_offset : NL_ALIGN (nlmsg_len (snd o1)) = 36 + A.
Proof. pose proof A_facts. rewrite o1_len, NL_ALIGN_aligned; zl. Qed.

Lemma build_add_frames :
  let fin := build_add setname ipaddr af remove in
  read16 (buf fin) (fst o0) = NL_ALIGN (nlmsg_len fin) - fst o0 /\
  read16 (buf fin) (fst o1) = NL_ALIGN (nlmsg_len fin) - fst o1 /\
  read16 (buf fin) (fst o0 + 2) = Z.lor NLA_F_NESTED IPSET_ATTR_DATA /\
  read16 (buf fin) (fst o1 + 2) = Z.lor NLA_F_NESTED IPSET_ATTR_IP /\
  map fst (firstn 4 (buf fin)) = [fst o0 + 1; fst o0; fst o1 + 1; fst o1].
Proof.
  pose proof A_facts. intros fin. unfold fin.
  rewrite build_add_len, build_add_steps.
  split; [|split; [|split; [|split]]].
  - rewrite close_nested_nla_len. cbn [nlmsg_len close_nested].
    rewrite ad_len. apply u16_small. rewrite o0_offset, NL_ALIGN_aligned by zl. lia.
  - cbn [buf close_nested]. rewrite read16_store16_other by (rewrite o0_offset, o1_offset; lia).
    rewrite read16_store16, ad_len, o1_offset, NL_ALIGN_aligned by zl.
    rewrite (u16_small (44 + A - (32 + A))) by lia. rewrite u16_small by lia. reflexivity.
  - cbn [buf close_nested].
    rewrite !read16_store16_other by (rewrite ?o0_offset, ?o1_offset; lia).
    transitivity (read16 (buf (snd o0)) (fst o0 + 2)).
    + apply read16_from_read; unfold ad;
        (rewrite add_attr_read_below by (rewrite addr_attr_offset, ?o0_offset, ?o1_offset; lia));
        unfold o1; apply open_nested_read_other; rewrite o0_len, o0_offset, NL_ALIGN_aligned; zl.
    + unfold o0 at 1 2. rewrite open_nested_offset, open_nested_type. reflexivity.
  - cbn [buf close_nested].
    rewrite !read16_store16_other by (rewrite ?o0_offset, ?o1_offset; lia).
    transitivity (read16 (buf (snd o1)) (fst o1 + 2)).
    + apply read16_from_read; unfold ad;
        (rewrite add_attr_read_below by (rewrite addr_attr_offset, ?o0_offset, ?o1_offset; lia)); reflexivity.
    + unfold o1 at 1 2. rewrite open_nested_offset, open_nested_type. reflexivity.
  - reflexivity.
Qed.

Lemma build_add_addr_attr :
  read16 (buf (build_add setname ipaddr af remove)) (36 + A) = 8 /\
  read16 (buf (build_add setname ipaddr af remove)) (38 + A) = u16 (addr_type af).
Proof.
  pose proof A_facts. rewrite build_add_steps. cbn [buf close_nested].
  rewrite !read16_store16_other by (rewrite ?o0_offset, ?o1_offset; lia).
  replace (38 + A) with (36 + A + 2) by lia.
  rewrite <- addr_attr_offset. unfold ad.
  rewrite add_attr_nla_len, add_attr_nla_type. split; reflexivity.
Qed.

Lemma build_mac_len : nlmsg_len (build_mac setname eth_addr af) = 40 + A.
Proof.
  pose proof A_facts. unfold build_mac. unfold INETHSZ.
  rewrite add_attr_len; rewrite ?msg_prefix_len by exact Hname; try lia.
  change (NL_ALIGN (4 + 6)) with 12. lia.
Qed.

Lemma build_mac_in_bounds : Forall (in_range 0 BUFF_SZ) (buf (build_mac setname eth_addr af)).
Proof.
  pose proof A_facts. unfold build_mac, BUFF_SZ, INETHSZ.
  apply add_attr_in_bounds; rewrite ?msg_prefix_len, ?NL_ALIGN_aligned by (exact Hname || zl);
    try zl.
  apply msg_prefix_in_bounds. exact Hname.
Qed.

Lemma build_flush_len : nlmsg_len (build_flush setname) = 28 + A.
Proof. apply msg_prefix_len. exact Hname. Qed.

Lemma build_flush_in_bounds : Forall (in_range 0 BUFF_SZ) (buf (build_flush setname)).
Proof. apply msg_prefix_in_bounds. exact Hname. Qed.
End Builders.

(** ** The bytes handed to [sendto] *)

Lemma msg_bytes_length (nlh : msgbuf) :
  length (msg_bytes nlh) = Z.to_nat (nlmsg_len nlh).
Proof. unfold msg_bytes. rewrite length_map, length_seq. reflexivity. Qed.

Lemma msg_bytes_nth (nlh : msgbuf) (i : Z) :
  0 <= i < nlmsg_len nlh -> nth (Z.to_nat i) (msg_bytes nlh) 0 = byte_at nlh i.
Proof.
  intros H. unfold msg_bytes.
  set (f := fun k : nat => byte_at nlh (Z.of_nat k)).
  rewrite (nth_indep (map f (seq 0 (Z.to_nat (nlmsg_len nlh)))) 0 (f O))
    by (rewrite length_map, length_seq; lia).
  rewrite map_nth, seq_nth by lia. unfold f. f_equal. lia.
Qed.

Lemma msg_bytes_read (nlh : msgbuf) (i : Z) :
  4 <= i < nlmsg_len nlh -> nth (Z.to_nat i) (msg_bytes nlh) 0 = read (buf nlh) i.
Proof.
  intros H. rewrite msg_bytes_nth by lia. unfold byte_at.
  destruct (Z.ltb_spec i 4); [lia | reflexivity].
Qed.

Lemma msg_bytes_get16 (nlh : msgbuf) (i : Z) :
  4 <= i -> i + 1 < nlmsg_len nlh -> get16 (msg_bytes nlh) i = read16 (buf nlh) i.
Proof. intros. unfold get16, read16. rewrite !msg_bytes_read by lia. reflexivity. Qed.

(** ** The send loop *)

Lemma retry_send_stop (rc : Z) (p q : proc) :
  retry_send rc p = (0, q) -> retries q = 0.
Proof.
  unfold retry_send.
  destruct (negb (rc =? -1)); [intros H; inversion H; reflexivity|].
  destruct ((errno p =? EAGAIN) || (errno p =? EWOULDBLOCK)); [destruct (retries p <? 1000)|];
    cbn; destruct (errno p =? EINTR); intros H; inversion H; reflexivity.
Qed.

Lemma send_loop_result (env : list send_result) : forall (msg : list Z) (p : proc) sent p',
  send_loop env msg p = Some (sent, p') ->
  sent <> [] /\ Forall (fun m => m = msg) sent /\ retries p' = 0.
Proof.
  induction env as [|r env IH]; intros msg p sent p' H; cbn in H; [discriminate|].
  destruct (sendto r msg p) as [rc p1].
  destruct (retry_send rc p1) as [again p2] eqn:E2.
  destruct (Z.eqb_spec again 0) as [->|Hne].
  - inversion H; subst. split; [discriminate|]. split; [repeat constructor|].
    eapply retry_send_stop. exact E2.
  - destruct (send_loop env msg p2) as [[s q]|] eqn:E4; [|discriminate].
    inversion H; subst. destruct (IH _ _ _ _ E4) as (_ & Hs & Hq).
    split; [discriminate|]. split; [constructor; auto | exact Hq].
Qed.

Lemma send_and_report_sent (env : list send_result) (msg : list Z) (p : proc) rv sent p' :
  send_and_report env msg p = Ret rv sent p' -> Forall (fun m => m = msg) sent.
Proof.
  unfold send_and_report. destruct (send_loop env msg p) as [[s q]|] eqn:E; [|discriminate].
  intros H. inversion H; subst. eapply send_loop_result. exact E.
Qed.

Lemma send_loop_cons (r : send_result) (env : list send_result) (msg : list Z) (p : proc) :
  send_loop (r :: env) msg p =
  let '(rc, p) := sendto r msg p in
  let '(again, p) := retry_send rc p in
  if again =? 0 then Some ([msg], p)
  else match send_loop env msg p with
       | Some (sent, p') => Some (msg :: sent, p')
       | None => None
       end.
Proof. reflexivity. Qed.

Lemma retry_send_eagain (r : Z) :
  retry_send (-1) {| retries := r; errno := EAGAIN |}
  = if r <? 1000 then (1, {| retries := r + 1; errno := EAGAIN |})
    else (0, {| retries := 0; errno := EAGAIN |}).
Proof. unfold retry_send. cbn [retries errno]. destruct (r <? 1000); reflexivity. Qed.

Lemma send_loop_eagain_step (k : nat) (msg : list Z) (r e : Z) :
  send_loop (repeat (SendFail EAGAIN) (S k)) msg {| retries := r; errno := e |}
  = if r <? 1000
    then option_map (fun '(s, q) => (msg :: s, q))
           (send_loop (repeat (SendFail EAGAIN) k) msg {| retries := r + 1; errno := EAGAIN |})
    else Some ([msg], {| retries := 0; errno := EAGAIN |}).
Proof.
  cbn [repeat]. rewrite send_loop_cons. cbn [sendto retries].
  rewrite retry_send_eagain.
  destruct (r <? 1000); [|reflexivity].
  cbn - [send_loop]. destruct (send_loop _ _ _) as [[s q]|]; reflexivity.
Qed.

(** Under constant would-block, from a counter value [r] the loop makes
    [1001 - r] attempts. *)
Lemma send_loop_eagain (k : nat) : forall (msg : list Z) (p : proc),
  0 <= retries p <= 1000 ->
  send_loop (repeat (SendFail EAGAIN) k) msg p
  = if Z.of_nat k <? 1001 - retries p then None
    else Some (repeat msg (Z.to_nat (1001 - retries p)),
               {| retries := 0; errno := EAGAIN |}).
Proof.
  induction k as [|k IH]; intros msg [r e] Hr; cbn [retries] in *.
  - change (Z.of_nat 0) with 0.
    destruct (Z.ltb_spec 0 (1001 - r)); [reflexivity | lia].
  - rewrite send_loop_eagain_step.
    destruct (Z.ltb_spec r 1000).
    + rewrite IH by (cbn; lia). cbn [retries].
      destruct (Z.ltb_spec (Z.of_nat k) (1001 - (r + 1)));
        destruct (Z.ltb_spec (Z.of_nat (S k)) (1001 - r)); try lia; [reflexivity|].
      replace (Z.to_nat (1001 - r)) with (S (Z.to_nat (1001 - (r + 1)))) by lia.
      reflexivity.
    + assert (r = 1000) as -> by lia.
      destruct (Z.ltb_spec (Z.of_nat (S k)) (1001 - 1000)); [lia | reflexivity].
Qed.

Lemma build_mac_len_ge (setname eth_addr : list Z) (af : Z) :
  28 <= nlmsg_len (build_mac setname eth_addr af).
Proof.
  pose proof (msg_prefix_len_ge mac_cmd af setname). unfold build_mac, INETHSZ.
  rewrite add_attr_len by lia. change (NL_ALIGN (4 + 6)) with 12. lia.
Qed.

Lemma sent_nil_forall (P : list Z -> Prop) : Forall P [].
Proof. constructor. Qed.

(** * The claims *)

(** ** C1 *)

(** C1 (counterexample): the length field [add_attr] writes into the
    attribute header is not always a multiple of 4: for the one-byte
    protocol attribute it is 5. *)
Lemma add_attr_nla_len_unaligned :
  ~ (forall (nlh : msgbuf) (type len : Z) (data : list Z),
       let v := read16 (buf (add_attr nlh type len data)) (NL_ALIGN (nlmsg_len nlh)) in
       v mod 4 = 0 /\ 4 + len <= v).
Proof.
  intros H.
  specialize (H (msg_header (add_cmd 0) AF_INET) IPSET_ATTR_PROTOCOL 1 [IPSET_PROTOCOL]).
  vm_compute in H. destruct H as [H _]. discriminate.
Qed.

(** C1 (amended): [add_attr] writes the header (length [4 + len], the
    unaligned size of header plus payload, and the type) at the aligned end
    of the buffer, and advances the logical length by [NL_ALIGN (4 + len)],
    which is a multiple of 4 and at least [4 + len]. *)
Theorem add_attr_header_and_advance (nlh : msgbuf) (type len : Z) (data : list Z) :
  0 <= nlmsg_len nlh -> 0 <= len -> 4 + len < 2 ^ 16 -> nlmsg_len nlh + len + 7 < 2 ^ 32 ->
  let attr := NL_ALIGN (nlmsg_len nlh) in
  let nlh' := add_attr nlh type len data in
  read16 (buf nlh') attr = 4 + len /\
  read16 (buf nlh') (attr + 2) = u16 type /\
  nlmsg_len nlh' = nlmsg_len nlh + NL_ALIGN (4 + len) /\
  NL_ALIGN (4 + len) mod 4 = 0 /\ 4 + len <= NL_ALIGN (4 + len).
Proof.
  intros H1 H2 H3 H4 attr nlh'.
  pose proof (NL_ALIGN_bounds (4 + len)).
  split; [|split; [|split]].
  - unfold nlh', attr. rewrite add_attr_nla_len. apply u16_small. lia.
  - apply add_attr_nla_type.
  - apply add_attr_len; assumption.
  - lia.
Qed.

Lemma add_attr_header_and_advance_witness :
  read16 (buf (add_attr (msg_header (add_cmd 0) AF_INET) IPSET_ATTR_PROTOCOL 1 [IPSET_PROTOCOL])) 20 = 5.
Proof.
  apply (add_attr_header_and_advance (msg_header (add_cmd 0) AF_INET) IPSET_ATTR_PROTOCOL 1
           [IPSET_PROTOCOL]); vm_compute; congruence.
Defined.

(** ** C2 *)

(** C2: in the message of the address builder, the length backpatched into
    each of the two nested frames (the data frame and, inside it, the
    address frame) is the distance from the offset recorded when the frame
    was opened to the aligned logical length at close time; the frames carry
    their nested types, and the last four bytes written are the address
    frame's length first, then the data frame's (innermost first). *)
Theorem build_add_nested_lengths (setname ipaddr : list Z) (af remove : Z) :
  Z.of_nat (strlen setname) < IPSET_MAXNAMELEN ->
  let data_frame := open_nested (msg_prefix (add_cmd remove) af setname)
                                (Z.lor NLA_F_NESTED IPSET_ATTR_DATA) in
  let addr_frame := open_nested (snd data_frame) (Z.lor NLA_F_NESTED IPSET_ATTR_IP) in
  let fin := build_add setname ipaddr af remove in
  read16 (buf fin) (fst data_frame) = NL_ALIGN (nlmsg_len fin) - fst data_frame /\
  read16 (buf fin) (fst addr_frame) = NL_ALIGN (nlmsg_len fin) - fst addr_frame /\
  read16 (buf fin) (fst data_frame + 2) = Z.lor NLA_F_NESTED IPSET_ATTR_DATA /\
  read16 (buf fin) (fst addr_frame + 2) = Z.lor NLA_F_NESTED IPSET_ATTR_IP /\
  map fst (firstn 4 (buf fin))
  = [fst data_frame + 1; fst data_frame; fst addr_frame + 1; fst addr_frame].
Proof. intros H. exact (build_add_frames setname ipaddr af remove H). Qed.

Lemma build_add_nested_lengths_witness :
  read16 (buf (build_add blocklist [192; 0; 2; 1] AF_INET 0)) 44 = 16.
Proof.
  destruct (build_add_nested_lengths blocklist [192; 0; 2; 1] AF_INET 0)
    as [H _]; [vm_compute; reflexivity|].
  exact H.
Defined.

(** ** C3 *)

(** C3 (counterexample): under constant would-block the send loop, entered
    with the counter at 0, makes 1001 attempts, more than 1000. *)
Lemma send_loop_would_block_1001_attempts :
  ~ (forall (n : nat) (msg : list Z) (p : proc) sent p',
       retries p = 0 ->
       send_loop (repeat (SendFail EAGAIN) n) msg p = Some (sent, p') ->
       (length sent <= 1000)%nat).
Proof.
  intros H.
  assert (E : send_loop (repeat (SendFail EAGAIN) 1001) [] {| retries := 0; errno := 0 |}
              = Some (repeat [] 1001, {| retries := 0; errno := EAGAIN |}))
    by (vm_compute; reflexivity).
  specialize (H _ _ _ _ _ (eq_refl : retries {| retries := 0; errno := 0 |} = 0) E).
  rewrite repeat_length in H. lia.
Qed.

(** C3 (amended): every send loop that finishes leaves the retry counter at
    0, so each loop is entered with it at 0; from there, when every attempt
    fails with would-block, the loop makes exactly 1001 attempts (the first
    one and 1000 retries), then gives up with the counter at 0. *)
Theorem send_loop_would_block_bound :
  (forall env msg p sent p', send_loop env msg p = Some (sent, p') -> retries p' = 0) /\
  (forall (k : nat) (msg : list Z) (p : proc),
     retries p = 0 ->
     send_loop (repeat (SendFail EAGAIN) k) msg p
     = if Nat.ltb k 1001 then None
       else Some (repeat msg 1001, {| retries := 0; errno := EAGAIN |})).
Proof.
  split.
  - intros env msg p sent p' H. apply (send_loop_result env msg p sent p' H).
  - intros k msg p Hp. rewrite send_loop_eagain by lia. rewrite Hp.
    destruct (Nat.ltb_spec k 1001); destruct (Z.ltb_spec (Z.of_nat k) (1001 - 0));
      try lia; reflexivity.
Qed.

Lemma send_loop_would_block_bound_witness :
  send_loop (repeat (SendFail EAGAIN) 1200%nat) [1] {| retries := 0; errno := 0 |}
  = Some (repeat [1] 1001, {| retries := 0; errno := EAGAIN |}).
Proof.
  apply (proj2 send_loop_would_block_bound 1200%nat [1] {| retries := 0; errno := 0 |}).
  reflexivity.
Defined.

(** ** C4 *)

(** C4 (code bug): [flush_ipset] rejects a NULL set name with
    [ENAMETOOLONG], but [add_to_ipset] passes a NULL name on to
    [new_add_to_ipset] (or [new_add_mac_to_ipset]), which calls
    [strlen(NULL)]: undefined behaviour instead of a rejection. *)
Theorem add_to_ipset_null_name
  (is_valid_ip is_valid_mac : list Z -> bool) (inet_aton ether_aton : list Z -> option (list Z))
  (val addr : list Z) (flag : Z) (env : list send_result) (p : proc) :
  is_valid_ip val = true -> inet_aton val = Some addr ->
  flush_ipset None env p = Ret (-1) [] {| retries := retries p; errno := ENAMETOOLONG |} /\
  add_to_ipset is_valid_ip is_valid_mac inet_aton ether_aton None val flag env p = UB.
Proof.
  intros Hv Ha. split; [reflexivity|].
  unfold add_to_ipset. rewrite Hv, Ha. reflexivity.
Qed.

Lemma add_to_ipset_null_name_witness :
  add_to_ipset (fun _ => true) (fun _ => false) (fun v => Some v) (fun _ => None)
    None [192; 0; 2; 1] 0 [SendOk] {| retries := 0; errno := 0 |} = UB.
Proof.
  apply (add_to_ipset_null_name (fun _ => true) (fun _ => false) (fun v => Some v)
           (fun _ => None) [192; 0; 2; 1] [192; 0; 2; 1] 0 [SendOk]
           {| retries := 0; errno := 0 |}); reflexivity.
Defined.

(** ** C5 *)

(** C5: in each builder entry point a set name shorter than 32 bytes passes
    the check and the message is built and sent; a name of 32 bytes or more
    returns -1 with [errno = ENAMETOOLONG] and no [sendto]. *)
Theorem builders_name_check (setname ipaddr eth_addr : list Z) (af remove timeout : Z)
  (env : list send_result) (p : proc) :
  (Z.of_nat (strlen setname) < IPSET_MAXNAMELEN ->
   new_add_to_ipset (Some setname) ipaddr af remove env p
   = send_and_report env (msg_bytes (build_add setname ipaddr af remove)) p /\
   new_add_mac_to_ipset (Some setname) eth_addr af timeout env p
   = send_and_report env (msg_bytes (build_mac setname eth_addr af)) p /\
   flush_ipset (Some setname) env p
   = send_and_report env (msg_bytes (build_flush setname)) p) /\
  (IPSET_MAXNAMELEN <= Z.of_nat (strlen setname) ->
   new_add_to_ipset (Some setname) ipaddr af remove env p
   = Ret (-1) [] {| retries := retries p; errno := ENAMETOOLONG |} /\
   new_add_mac_to_ipset (Some setname) eth_addr af timeout env p
   = Ret (-1) [] {| retries := retries p; errno := ENAMETOOLONG |} /\
   flush_ipset (Some setname) env p
   = Ret (-1) [] {| retries := retries p; errno := ENAMETOOLONG |}).
Proof.
  unfold new_add_to_ipset, new_add_mac_to_ipset, flush_ipset.
  split; intros H.
  - destruct (Z.geb_spec (Z.of_nat (strlen setname)) IPSET_MAXNAMELEN); [lia|].
    repeat split.
  - destruct (Z.geb_spec (Z.of_nat (strlen setname)) IPSET_MAXNAMELEN); [|lia].
    repeat split.
Qed.

Lemma builders_name_check_witness :
  flush_ipset (Some (repeat 97 32)) [SendOk] {| retries := 0; errno := 0 |}
  = Ret (-1) [] {| retries := 0; errno := ENAMETOOLONG |} /\
  flush_ipset (Some (repeat 97 31)) [SendOk] {| retries := 0; errno := 0 |}
  = send_and_report [SendOk] (msg_bytes (build_flush (repeat 97 31)))
      {| retries := 0; errno := 0 |}.
Proof.
  split.
  - apply (proj2 (builders_name_check (repeat 97 32) [] [] AF_INET 0 0 [SendOk]
                    {| retries := 0; errno := 0 |})); vm_compute; discriminate.
  - apply (proj1 (builders_name_check (repeat 97 31) [] [] AF_INET 0 0 [SendOk]
                    {| retries := 0; errno := 0 |})); vm_compute; reflexivity.
Defined.

(** ** C6 *)

(** C6: the flush message carries [AF_INET] in its [nfgen_family] byte
    (offset 16), for every set name, and so does every message
    [flush_ipset] hands to [sendto]. *)
Theorem flush_ipset_family_ipv4 :
  (forall setname : list Z, read (buf (build_flush setname)) 16 = AF_INET) /\
  (forall (setname : cstring) (env : list send_result) (p : proc) rv sent p',
     flush_ipset setname env p = Ret rv sent p' ->
     Forall (fun m => nth 16 m 0 = AF_INET) sent).
Proof.
  split; [exact build_flush_family|].
  intros [s|] env p rv sent p' H; unfold flush_ipset, name_too_long in H;
    [|inversion H; subst; constructor].
  destruct (Z.of_nat (strlen s) >=? IPSET_MAXNAMELEN);
    [inversion H; subst; constructor|].
  apply send_and_report_sent in H.
  eapply Forall_impl; [|exact H]. intros m ->.
  change 16%nat with (Z.to_nat 16).
  pose proof (msg_prefix_len_ge flush_cmd AF_INET s).
  rewrite msg_bytes_read by (unfold build_flush; lia).
  apply build_flush_family.
Qed.

Lemma flush_ipset_family_ipv4_witness :
  Forall (fun m => nth 16 m 0 = AF_INET)
    [msg_bytes (build_flush blocklist)].
Proof.
  apply (proj2 flush_ipset_family_ipv4 (Some blocklist) [SendOk]
           {| retries := 0; errno := 0 |} 0 [msg_bytes (build_flush blocklist)]
           {| retries := 0; errno := 0 |}).
  vm_compute. reflexivity.
Defined.

(** ** C7 *)

(** C7: [new_add_mac_to_ipset] never reads its [timeout] argument (its
    result, messages included, is the same for any two values), and the
    [nlmsg_type] of every message it builds or sends is
    [IPSET_CMD_ADD | (NFNL_SUBSYS_IPSET << 8)]. *)
Theorem new_add_mac_always_add :
  (forall (setname : cstring) (eth_addr : list Z) (af t1 t2 : Z) env p,
     new_add_mac_to_ipset setname eth_addr af t1 env p
     = new_add_mac_to_ipset setname eth_addr af t2 env p) /\
  (forall (setname eth_addr : list Z) (af : Z),
     read16 (buf (build_mac setname eth_addr af)) 4
     = Z.lor IPSET_CMD_ADD (Z.shiftl NFNL_SUBSYS_IPSET 8)) /\
  (forall (setname : cstring) (eth_addr : list Z) (af timeout : Z) env p rv sent p',
     new_add_mac_to_ipset setname eth_addr af timeout env p = Ret rv sent p' ->
     Forall (fun m => get16 m 4 = Z.lor IPSET_CMD_ADD (Z.shiftl NFNL_SUBSYS_IPSET 8)) sent).
Proof.
  split; [reflexivity|]. split.
  - intros. rewrite build_mac_type. reflexivity.
  - intros [s|] eth_addr af timeout env p rv sent p' H;
      unfold new_add_mac_to_ipset, name_too_long in H; [|discriminate].
    destruct (Z.of_nat (strlen s) >=? IPSET_MAXNAMELEN);
      [inversion H; subst; constructor|].
    apply send_and_report_sent in H.
    eapply Forall_impl; [|exact H]. intros m ->.
    pose proof (build_mac_len_ge s eth_addr af).
    rewrite msg_bytes_get16 by lia. rewrite build_mac_type. reflexivity.
Qed.

Lemma new_add_mac_always_add_witness :
  Forall (fun m => get16 m 4 = Z.lor IPSET_CMD_ADD (Z.shiftl NFNL_SUBSYS_IPSET 8))
    [msg_bytes (build_mac blocklist [170; 187; 204; 221; 238; 255] AF_INET)].
Proof.
  apply (proj2 (proj2 new_add_mac_always_add) (Some blocklist) [170; 187; 204; 221; 238; 255]
           AF_INET 1 [SendOk] {| retries := 0; errno := 0 |} 0
           [msg_bytes (build_mac blocklist [170; 187; 204; 221; 238; 255] AF_INET)]
           {| retries := 0; errno := 0 |}).
  vm_compute. reflexivity.
Defined.

(** ** C8 *)

(** C8: when the value is neither a valid address nor a valid hardware
    address, [add_to_ipset] returns -1 at once: no message, no [sendto],
    process state unchanged. *)
Theorem add_to_ipset_unclassified
  (is_valid_ip is_valid_mac : list Z -> bool) (inet_aton ether_aton : list Z -> option (list Z))
  (setname : cstring) (val : list Z) (flag : Z) (env : list send_result) (p : proc) :
  is_valid_ip val = false -> is_valid_mac val = false ->
  add_to_ipset is_valid_ip is_valid_mac inet_aton ether_aton setname val flag env p
  = Ret (-1) [] p.
Proof. intros Hi Hm. unfold add_to_ipset. rewrite Hi, Hm. reflexivity. Qed.

Lemma add_to_ipset_unclassified_witness :
  add_to_ipset (fun _ => false) (fun _ => false) (fun _ => None) (fun _ => None)
    (Some blocklist) [110; 111] 0 [SendOk] {| retries := 0; errno := 0 |}
  = Ret (-1) [] {| retries := 0; errno := 0 |}.
Proof.
  apply (add_to_ipset_unclassified (fun _ => false) (fun _ => false) (fun _ => None)
           (fun _ => None) (Some blocklist) [110; 111] 0 [SendOk]
           {| retries := 0; errno := 0 |}); reflexivity.
Defined.

(** ** C9 *)

(** C9: for a set name shorter than 32 bytes, each of the three builders
    writes only inside [buffer[0 .. BUFF_SZ)] and ends with a logical length
    of at most [BUFF_SZ]. *)
Theorem builders_within_buffer (setname ipaddr eth_addr : list Z) (af remove : Z) :
  Z.of_nat (strlen setname) < IPSET_MAXNAMELEN ->
  (Forall (in_range 0 BUFF_SZ) (buf (build_add setname ipaddr af remove)) /\
   nlmsg_len (build_add setname ipaddr af remove) <= BUFF_SZ) /\
  (Forall (in_range 0 BUFF_SZ) (buf (build_mac setname eth_addr af)) /\
   nlmsg_len (build_mac setname eth_addr af) <= BUFF_SZ) /\
  (Forall (in_range 0 BUFF_SZ) (buf (build_flush setname)) /\
   nlmsg_len (build_flush setname) <= BUFF_SZ).
Proof.
  intros H. pose proof (A_facts setname H).
  rewrite build_add_len, build_mac_len, build_flush_len by exact H.
  unfold BUFF_SZ at 2 4 6.
  split; [|split]; (split; [|lia]).
  - apply build_add_in_bounds. exact H.
  - apply build_mac_in_bounds. exact H.
  - apply build_flush_in_bounds. exact H.
Qed.

Lemma builders_within_buffer_witness :
  nlmsg_len (build_add (repeat 97 31) [192; 0; 2; 1] AF_INET 1) <= BUFF_SZ.
Proof.
  apply (builders_within_buffer (repeat 97 31) [192; 0; 2; 1] [] AF_INET 1).
  vm_compute. reflexivity.
Defined.

(** ** C10 *)

(** C10: [add_to_ipset] always builds with [af = AF_INET]: every message it
    sends has [AF_INET] in its [nfgen_family] byte, and for an address value
    the address attribute, at offset [36 + NL_ALIGN (strlen + 5)], has the
    IPv4 type with the network-byte-order flag and length 8 (a 4-byte
    payload) and ends the message. *)
Theorem add_to_ipset_ipv4_only
  (is_valid_ip is_valid_mac : list Z -> bool) (inet_aton ether_aton : list Z -> option (list Z))
  (setname val : list Z) (flag : Z) (env : list send_result) (p : proc) rv sent p' :
  add_to_ipset is_valid_ip is_valid_mac inet_aton ether_aton (Some setname) val flag env p
  = Ret rv sent p' ->
  Forall (fun m => nth 16 m 0 = AF_INET) sent /\
  (is_valid_ip val = true ->
   Forall (fun m =>
     let A := NL_ALIGN (Z.of_nat (strlen setname) + 5) in
     length m = Z.to_nat (44 + A) /\
     get16 m (36 + A) = 8 /\
     get16 m (38 + A) = Z.lor IPSET_ATTR_IPADDR_IPV4 NLA_F_NET_BYTEORDER) sent).
Proof.
  unfold add_to_ipset. destruct (is_valid_ip val) eqn:Hv.
  - destruct (inet_aton val) as [addr|];
      [|intros H; inversion H; subst; split; [constructor | intros; constructor]].
    unfold new_add_to_ipset, name_too_long.
    destruct (Z.geb_spec (Z.of_nat (strlen setname)) IPSET_MAXNAMELEN) as [Hl|Hl];
      [intros H; inversion H; subst; split; [constructor | intros; constructor]|].
    intros H. apply send_and_report_sent in H.
    pose proof (A_facts setname Hl).
    pose proof (build_add_len setname addr AF_INET flag Hl) as Hlen.
    split; [|intros _]; (eapply Forall_impl; [|exact H]); intros m ->; cbn zeta.
    + change 16%nat with (Z.to_nat 16).
      rewrite msg_bytes_read by lia.
      rewrite build_add_read_below by (exact Hl || lia).
      rewrite msg_prefix_family. reflexivity.
    + split; [|split].
      * rewrite msg_bytes_length, Hlen. reflexivity.
      * rewrite msg_bytes_get16 by lia. apply build_add_addr_attr. exact Hl.
      * rewrite msg_bytes_get16 by lia. rewrite (proj2 (build_add_addr_attr _ _ _ _ Hl)).
        reflexivity.
  - destruct (is_valid_mac val).
    + destruct (ether_aton val) as [addr|];
        [|intros H; inversion H; subst; split; [constructor | intros; constructor]].
      unfold new_add_mac_to_ipset, name_too_long.
      destruct (Z.of_nat (strlen setname) >=? IPSET_MAXNAMELEN);
        [intros H; inversion H; subst; split; [constructor | intros; constructor]|].
      intros H. apply send_and_report_sent in H.
      split; [|discriminate].
      eapply Forall_impl; [|exact H]. intros m ->.
      pose proof (build_mac_len_ge setname addr AF_INET).
      change 16%nat with (Z.to_nat 16).
      rewrite msg_bytes_read by lia.
      rewrite build_mac_read_below by lia. reflexivity.
    + intros H; inversion H; subst; split; [constructor | intros; constructor].
Qed.

Lemma add_to_ipset_ipv4_only_witness :
  Forall (fun m => nth 16 m 0 = AF_INET)
    [msg_bytes (build_add blocklist [192; 0; 2; 1] AF_INET 0)].
Proof.
  apply (add_to_ipset_ipv4_only (fun _ => true) (fun _ => false) (fun v => Some v)
           (fun _ => None) blocklist [192; 0; 2; 1] 0 [SendOk]
           {| retries := 0; errno := 0 |} 0
           [msg_bytes (build_add blocklist [192; 0; 2; 1] AF_INET 0)]
           {| retries := 0; errno := 0 |}).
  vm_compute. reflexivity.
Defined.

(** * Further properties of the code *)

(** ** The send loop *)

Lemma retry_send_fail (r e : Z) :
  retry_send (-1) {| retries := r; errno := e |}
  = if e =? EAGAIN then
      (if r <? 1000 then (1, {| retries := r + 1; errno := e |})
       else if e =? EINTR then (1, {| retries := 0; errno := e |})
       else (0, {| retries := 0; errno := e |}))
    else if e =? EINTR then (1, {| retries := 0; errno := e |})
    else (0, {| retries := 0; errno := e |}).
Proof.
  unfold retry_send, EWOULDBLOCK. cbn [retries errno].
  destruct (e =? EAGAIN); [destruct (r <? 1000)|]; reflexivity.
Qed.

Lemma sendto_ok_rc (msg : list Z) : (Z.of_nat (length msg) =? -1) = false.
Proof. apply Z.eqb_neq. lia. Qed.

Lemma send_loop_ok (env : list send_result) (msg : list Z) (p : proc) :
  send_loop (SendOk :: env) msg p = Some ([msg], {| retries := 0; errno := 0 |}).
Proof.
  rewrite send_loop_cons. cbn [sendto]. unfold retry_send. rewrite sendto_ok_rc.
  reflexivity.
Qed.

Lemma send_loop_fail_step (e : Z) (env : list send_result) (msg : list Z) (p : proc) :
  send_loop (SendFail e :: env) msg p =
  let '(again, q) := retry_send (-1) {| retries := retries p; errno := e |} in
  if again =? 0 then Some ([msg], q)
  else option_map (fun '(s, q') => (msg :: s, q')) (send_loop env msg q).
Proof.
  rewrite send_loop_cons. cbn [sendto].
  destruct (retry_send _ _) as [a q]. destruct (a =? 0); [reflexivity|].
  destruct (send_loop env msg q) as [[s q']|]; reflexivity.
Qed.

Lemma send_loop_eintr (env : list send_result) (msg : list Z) (p : proc) :
  send_loop (SendFail EINTR :: env) msg p
  = option_map (fun '(s, q) => (msg :: s, q))
      (send_loop env msg {| retries := 0; errno := EINTR |}).
Proof. rewrite send_loop_fail_step, retry_send_fail. reflexivity. Qed.

Lemma send_loop_eagain_ok (env : list send_result) (msg : list Z) (j : nat) :
  forall p : proc, 0 <= retries p -> Z.of_nat j + retries p <= 1000 ->
  send_loop (repeat (SendFail EAGAIN) j ++ SendOk :: env) msg p
  = Some (repeat msg (S j), {| retries := 0; errno := 0 |}).
Proof.
  induction j as [|j IH]; intros p H1 H2.
  - apply send_loop_ok.
  - cbn [repeat app]. rewrite send_loop_fail_step, retry_send_fail.
    rewrite Z.eqb_refl. destruct (Z.ltb_spec (retries p) 1000); [|lia].
    cbn [Z.eqb]. rewrite IH by (cbn [retries]; lia). reflexivity.
Qed.

Lemma send_loop_interrupted_gen (k : nat) (env : list send_result) (msg : list Z) :
  forall p : proc,
  send_loop (repeat (SendFail EINTR) (S k) ++ env) msg p
  = option_map (fun '(s, q) => (repeat msg (S k) ++ s, q))
      (send_loop env msg {| retries := 0; errno := EINTR |}).
Proof.
  induction k as [|k IH]; intros p.
  - cbn [repeat app]. rewrite send_loop_eintr.
    destruct (send_loop env msg _) as [[s q]|]; reflexivity.
  - change (repeat (SendFail EINTR) (S (S k)) ++ env)
      with (SendFail EINTR :: (repeat (SendFail EINTR) (S k) ++ env)).
    rewrite send_loop_eintr, IH.
    destruct (send_loop env msg _) as [[s q]|]; reflexivity.
Qed.

Lemma send_loop_bound_gen (env : list send_result) (msg : list Z) :
  forall p : proc,
  0 <= retries p <= 1000 -> ~ In (SendFail EINTR) env ->
  (forall sent p', send_loop env msg p = Some (sent, p') ->
     Z.of_nat (length sent) <= 1001 - retries p) /\
  (1001 - retries p <= Z.of_nat (length env) -> send_loop env msg p <> None).
Proof.
  induction env as [|r env IH]; intros [rt e0] Hr Hin; cbn [retries] in *.
  - split; [discriminate|]. cbn [length]. lia.
  - assert (Hin' : ~ In (SendFail EINTR) env) by (intros H; apply Hin; right; exact H).
    destruct r as [|e].
    + rewrite send_loop_ok. split; [|discriminate].
      intros sent p' H. inversion H; subst. cbn [length]. lia.
    + assert (He : e <> EINTR) by (intros ->; apply Hin; left; reflexivity).
      rewrite send_loop_fail_step, retry_send_fail. cbn [retries].
      destruct (Z.eqb_spec e EAGAIN) as [->|Hne].
      * destruct (Z.ltb_spec rt 1000) as [Hlt|Hge].
        -- cbn [Z.eqb].
           destruct (IH {| retries := rt + 1; errno := EAGAIN |}) as [IH1 IH2];
             [cbn [retries]; lia | exact Hin'|].
           cbn [retries] in IH1, IH2.
           destruct (send_loop env msg _) as [[s q]|] eqn:E; cbn [option_map].
           ++ specialize (IH1 s q eq_refl). split; [|discriminate].
              intros sent p' H. inversion H; subst. cbn [length]. lia.
           ++ split; [discriminate|]. intros H. exfalso.
              apply IH2; [cbn [length] in H; lia | reflexivity].
        -- change (EAGAIN =? EINTR) with false. cbn [Z.eqb].
           split; [|discriminate].
           intros sent p' H. inversion H; subst. cbn [length]. lia.
      * destruct (Z.eqb_spec e EINTR) as [|_]; [contradiction|].
        cbn [Z.eqb]. split; [|discriminate].
        intros sent p' H. inversion H; subst. cbn [length]. lia.
Qed.

(** X1: when the socket reports would-block [j <= 1000] times and then
    accepts the message, the send loop (entered with the counter at 0, as
    every loop is) hands the same message to [sendto] [j + 1] times and
    the operation returns 0 with [errno] and the counter reset to 0. *)
Theorem send_and_report_transient_would_block
  (j : nat) (env : list send_result) (msg : list Z) (p : proc) :
  retries p = 0 -> (j <= 1000)%nat ->
  send_and_report (repeat (SendFail EAGAIN) j ++ SendOk :: env) msg p
  = Ret 0 (repeat msg (S j)) {| retries := 0; errno := 0 |}.
Proof.
  intros H1 H2. unfold send_and_report.
  rewrite send_loop_eagain_ok by lia. reflexivity.
Qed.

Lemma send_and_report_transient_would_block_witness :
  send_and_report (repeat (SendFail EAGAIN) 1000%nat ++ [SendOk]) [1; 2]
    {| retries := 0; errno := EAGAIN |}
  = Ret 0 (repeat [1; 2] 1001) {| retries := 0; errno := 0 |}.
Proof.
  apply (send_and_report_transient_would_block 1000%nat [] [1; 2]
           {| retries := 0; errno := EAGAIN |}); [reflexivity | lia].
Defined.

(** X2: [k + 1] interrupted sends ([EINTR]) each cost one attempt and then
    the loop goes on exactly as a loop that starts afresh with the counter
    at 0: an interruption never ends the loop and resets the would-block
    budget. *)
Theorem send_loop_interrupted (k : nat) (env : list send_result) (msg : list Z) (p : proc) :
  send_loop (repeat (SendFail EINTR) (S k) ++ env) msg p
  = option_map (fun '(s, q) => (repeat msg (S k) ++ s, q))
      (send_loop env msg {| retries := 0; errno := EINTR |}).
Proof. apply send_loop_interrupted_gen. Qed.

(** X3: a send that fails with an error other than would-block or
    interruption ends the loop after that single attempt; the operation
    returns -1, keeps the error in [errno] and resets the counter. *)
Theorem send_and_report_fatal (e : Z) (env : list send_result) (msg : list Z) (p : proc) :
  e <> 0 -> e <> EAGAIN -> e <> EINTR ->
  send_and_report (SendFail e :: env) msg p = Ret (-1) [msg] {| retries := 0; errno := e |}.
Proof.
  intros H0 H1 H2. unfold send_and_report.
  rewrite send_loop_fail_step, retry_send_fail.
  destruct (Z.eqb_spec e EAGAIN); [contradiction|].
  destruct (Z.eqb_spec e EINTR); [contradiction|].
  cbn [Z.eqb errno]. destruct (Z.eqb_spec e 0); [contradiction | reflexivity].
Qed.

Lemma send_and_report_fatal_witness :
  send_and_report [SendFail 105; SendOk] [1] {| retries := 0; errno := 0 |}
  = Ret (-1) [[1]] {| retries := 0; errno := 105 |}.
Proof. apply send_and_report_fatal; unfold EAGAIN, EINTR; lia. Defined.

(** X4: as long as no send is interrupted, a send loop entered with the
    counter at [r] (between 0 and 1000) makes at most [1001 - r] attempts,
    and it always ends once the socket has given [1001 - r] outcomes. *)
Theorem send_loop_attempts_bounded (env : list send_result) (msg : list Z) (p : proc) :
  0 <= retries p <= 1000 -> ~ In (SendFail EINTR) env ->
  (forall sent p', send_loop env msg p = Some (sent, p') ->
     Z.of_nat (length sent) <= 1001 - retries p) /\
  (1001 - retries p <= Z.of_nat (length env) -> send_loop env msg p <> None).
Proof. apply send_loop_bound_gen. Qed.

Lemma send_loop_attempts_bounded_witness :
  send_loop (repeat (SendFail EAGAIN) 4) [1] {| retries := 997; errno := 0 |} <> None.
Proof.
  refine (proj2 (send_loop_attempts_bounded (repeat (SendFail EAGAIN) 4) [1]
                   {| retries := 997; errno := 0 |} _ _) _).
  - simpl. lia.
  - simpl. intros [H|[H|[H|[H|[]]]]]; discriminate.
  - simpl. lia.
Defined.

(** ** Reading the messages back *)

Lemma read_memcpy_in (src : list Z) : forall (m : mem) (dst i : Z),
  dst <= i < dst + Z.of_nat (length src) ->
  read (memcpy m dst src) i = Z.land (nth (Z.to_nat (i - dst)) src 0) 255.
Proof.
  induction src as [|c t IH]; intros m dst i H; cbn [length] in H; [lia|].
  cbn [memcpy]. destruct (Z.eqb_spec i dst) as [->|Hne].
  - rewrite read_memcpy_out by lia. rewrite read_store8, Z.eqb_refl.
    rewrite Z.sub_diag. reflexivity.
  - rewrite IH by lia.
    replace (Z.to_nat (i - dst)) with (S (Z.to_nat (i - (dst + 1)))) by lia.
    reflexivity.
Qed.

Lemma read_out_of_range (lo hi : Z) (m : mem) (i : Z) :
  Forall (in_range lo hi) m -> i < lo \/ hi <= i -> read m i = 0.
Proof.
  induction m as [|[o v] t IH]; intros Hm Hi; [reflexivity|].
  inversion Hm as [|? ? Ho Ht]; subst. unfold in_range in Ho. cbn [fst] in Ho.
  cbn [read]. destruct (Z.eqb_spec o i); [lia|]. apply IH; assumption.
Qed.

Lemma land_255_byte (c : Z) : 0 <= c < 256 -> Z.land c 255 = c.
Proof. intros H. rewrite land_255_mod. apply Z.mod_small. exact H. Qed.

Lemma attr_payload_decode (b : msgbuf) (off : Z) (P : list Z) :
  4 <= off -> off + 4 + Z.of_nat (length P) <= nlmsg_len b ->
  read16 (buf b) off = 4 + Z.of_nat (length P) ->
  (forall j, (j < length P)%nat -> read (buf b) (off + 4 + Z.of_nat j) = nth j P 0) ->
  attr_payload (msg_bytes b) off = P.
Proof.
  intros H1 H2 H3 H4. unfold attr_payload.
  rewrite msg_bytes_get16 by lia. rewrite H3.
  replace (Z.to_nat (4 + Z.of_nat (length P) - 4)) with (length P) by lia.
  apply nth_ext with (d := 0) (d' := 0).
  - rewrite length_firstn, length_skipn, msg_bytes_length. lia.
  - intros j Hj. rewrite length_firstn in Hj.
    rewrite nth_firstn. destruct (Nat.ltb_spec j (length P)); [|lia].
    rewrite nth_skipn.
    replace (Z.to_nat (off + 4) + j)%nat with (Z.to_nat (off + 4 + Z.of_nat j)) by lia.
    rewrite msg_bytes_read by lia. apply H4. assumption.
Qed.

Lemma add_attr_read_payload (nlh : msgbuf) (type len : Z) (data : list Z) (j : nat) :
  (j < length (firstn (Z.to_nat len) data))%nat ->
  read (buf (add_attr nlh type len data)) (NL_ALIGN (nlmsg_len nlh) + 4 + Z.of_nat j)
  = Z.land (nth j (firstn (Z.to_nat len) data) 0) 255.
Proof.
  intros H. unfold add_attr. cbn [buf]. change (NL_ALIGN sizeof_my_nlattr) with 4.
  rewrite read_memcpy_in by lia.
  replace (NL_ALIGN (nlmsg_len nlh) + 4 + Z.of_nat j - (NL_ALIGN (nlmsg_len nlh) + 4))
    with (Z.of_nat j) by lia.
  rewrite Nat2Z.id. reflexivity.
Qed.

Lemma strlen_le (s : list Z) : (strlen s <= length s)%nat.
Proof.
  induction s as [|c t IH]; cbn [strlen length]; [lia|].
  destruct (c =? 0); lia.
Qed.

Lemma firstn_strlen (s : list Z) :
  firstn (S (strlen s)) (s ++ [0]) = firstn (strlen s) s ++ [0].
Proof.
  induction s as [|c t IH]; [reflexivity|].
  cbn [strlen]. destruct (Z.eqb_spec c 0) as [->|]; [reflexivity|].
  change ((c :: t) ++ [0]) with (c :: (t ++ [0])).
  rewrite !firstn_cons, IH. reflexivity.
Qed.

Lemma Forall_byte_firstn (s : list Z) (n : nat) :
  Forall (fun c => 0 <= c < 256) s -> Forall (fun c => 0 <= c < 256) (firstn n s ++ [0]).
Proof.
  intros H. apply Forall_app. split.
  - rewrite <- (firstn_skipn n s) in H. apply Forall_app in H. apply H.
  - repeat constructor; lia.
Qed.

Lemma msg_header_range (cmd af : Z) : Forall (in_range 4 20) (buf (msg_header cmd af)).
Proof.
  unfold msg_header. cbn [buf]. change (NL_ALIGN sizeof_nlmsghdr) with 16.
  repeat (apply Forall_store16 || apply Forall_cons); try apply Forall_nil;
    intros; unfold in_range; simpl; lia.
Qed.

Lemma msg_header_zero (cmd af i : Z) : 8 <= i < 16 -> read (buf (msg_header cmd af)) i = 0.
Proof.
  intros H.
  assert (i = 8 \/ i = 9 \/ i = 10 \/ i = 11 \/ i = 12 \/ i = 13 \/ i = 14 \/ i = 15)
    as Hi by lia.
  repeat destruct Hi as [->|Hi]; try reflexivity; subst; reflexivity.
Qed.

Lemma msg_prefix_steps (cmd af : Z) (s : list Z) :
  msg_prefix cmd af s
  = add_attr (add_attr (msg_header cmd af) IPSET_ATTR_PROTOCOL 1 [IPSET_PROTOCOL])
      IPSET_ATTR_SETNAME (Z.of_nat (strlen s) + 1) (s ++ [0]).
Proof. reflexivity. Qed.

Lemma name_attr_offset (cmd af : Z) :
  NL_ALIGN (nlmsg_len (add_attr (msg_header cmd af) IPSET_ATTR_PROTOCOL 1 [IPSET_PROTOCOL]))
  = 28.
Proof. rewrite proto_len. reflexivity. Qed.

Lemma msg_prefix_name_read (cmd af : Z) (s : list Z) (j : nat) :
  (j < S (strlen s))%nat ->
  read (buf (msg_prefix cmd af s)) (32 + Z.of_nat j)
  = Z.land (nth j (firstn (strlen s) s ++ [0]) 0) 255.
Proof.
  intros H. rewrite msg_prefix_steps.
  pose proof (strlen_le s).
  replace (32 + Z.of_nat j)
    with (NL_ALIGN (nlmsg_len (add_attr (msg_header cmd af) IPSET_ATTR_PROTOCOL 1
                                 [IPSET_PROTOCOL])) + 4 + Z.of_nat j)
    by (rewrite name_attr_offset; lia).
  replace (firstn (strlen s) s ++ [0])
    with (firstn (Z.to_nat (Z.of_nat (strlen s) + 1)) (s ++ [0])).
  - apply add_attr_read_payload.
    rewrite length_firstn, length_app. cbn [length]. lia.
  - replace (Z.to_nat (Z.of_nat (strlen s) + 1)) with (S (strlen s)) by lia.
    apply firstn_strlen.
Qed.

Lemma msg_prefix_name_header (cmd af : Z) (s : list Z) :
  Z.of_nat (strlen s) < IPSET_MAXNAMELEN ->
  read16 (buf (msg_prefix cmd af s)) 28 = Z.of_nat (strlen s) + 5 /\
  read16 (buf (msg_prefix cmd af s)) 30 = IPSET_ATTR_SETNAME.
Proof.
  unfold IPSET_MAXNAMELEN. intros H. rewrite msg_prefix_steps.
  rewrite <- (name_attr_offset cmd af). split.
  - rewrite add_attr_nla_len. rewrite u16_small by lia. lia.
  - replace 30 with (28 + 2) by reflexivity. rewrite <- (name_attr_offset cmd af).
    rewrite add_attr_nla_type. reflexivity.
Qed.

Lemma msg_prefix_range (cmd af : Z) (s : list Z) :
  Forall (in_range 4 (33 + Z.of_nat (strlen s))) (buf (msg_prefix cmd af s)).
Proof.
  rewrite msg_prefix_steps.
  apply add_attr_in_bounds; rewrite ?name_attr_offset; try lia.
  apply add_attr_in_bounds; rewrite ?msg_header_len; change (NL_ALIGN 20) with 20; try lia.
  apply Forall_impl with (P := in_range 4 20); [|apply msg_header_range].
  intros w. unfold in_range. lia.
Qed.

(** The bytes below 28 of the prefix do not depend on the set name. *)
Lemma msg_prefix_read_low (cmd af : Z) (s : list Z) (i : Z) :
  i < 28 ->
  read (buf (msg_prefix cmd af s)) i
  = read (buf (add_attr (msg_header cmd af) IPSET_ATTR_PROTOCOL 1 [IPSET_PROTOCOL])) i.
Proof.
  intros H. rewrite msg_prefix_steps. apply add_attr_read_below.
  rewrite name_attr_offset. exact H.
Qed.

Section Builders2.
Variables (setname ipaddr eth_addr : list Z) (af remove : Z).
Hypothesis Hname : Z.of_nat (strlen setname) < IPSET_MAXNAMELEN.

Let A := NL_ALIGN (Z.of_nat (strlen setname) + 5).
Let pre := msg_prefix (add_cmd remove) af setname.
Let o0 := open_nested pre (Z.lor NLA_F_NESTED IPSET_ATTR_DATA).
Let o1 := open_nested (snd o0) (Z.lor NLA_F_NESTED IPSET_ATTR_IP).
Let ad := add_attr (snd o1) (addr_type af) INADDRSZ ipaddr.

Lemma build_add_read_prefix (i : Z) :
  i < 28 + A -> read (buf (build_add setname ipaddr af remove)) i = read (buf pre) i.
Proof.
  intros H. pose proof (A_facts setname Hname).
  rewrite build_add_steps.
  rewrite !close_nested_read_other
    by (rewrite ?(o0_offset setname af remove Hname), ?(o1_offset setname af remove Hname);
        fold A; lia).
  unfold ad. rewrite add_attr_read_below
    by (rewrite (o1_len setname af remove Hname), NL_ALIGN_aligned; fold A; zl).
  unfold o1. rewrite open_nested_read_other
    by (rewrite (o0_len setname af remove Hname), NL_ALIGN_aligned; fold A; zl).
  unfold o0. rewrite open_nested_read_other
    by (rewrite (pre_len setname af remove Hname), NL_ALIGN_aligned; fold A; zl).
  reflexivity.
Qed.

Lemma build_mac_read_prefix (i : Z) :
  i < 28 + A ->
  read (buf (build_mac setname eth_addr af)) i = read (buf (msg_prefix mac_cmd af setname)) i.
Proof.
  intros H. pose proof (A_facts setname Hname). unfold build_mac.
  apply add_attr_read_below.
  rewrite (msg_prefix_len mac_cmd af setname Hname), NL_ALIGN_aligned; fold A; zl.
Qed.

End Builders2.

Section Builders3.
Variables (setname ipaddr eth_addr : list Z) (af remove : Z).
Hypothesis Hname : Z.of_nat (strlen setname) < IPSET_MAXNAMELEN.

Let A := NL_ALIGN (Z.of_nat (strlen setname) + 5).
Let pre := msg_prefix (add_cmd remove) af setname.
Let o0 := open_nested pre (Z.lor NLA_F_NESTED IPSET_ATTR_DATA).
Let o1 := open_nested (snd o0) (Z.lor NLA_F_NESTED IPSET_ATTR_IP).
Let ad := add_attr (snd o1) (addr_type af) INADDRSZ ipaddr.

Lemma build_add_read_addr (j : nat) :
  length ipaddr = 4%nat -> (j < 4)%nat ->
  read (buf (build_add setname ipaddr af remove)) (40 + A + Z.of_nat j)
  = Z.land (nth j ipaddr 0) 255.
Proof.
  intros Hl Hj. pose proof (A_facts setname Hname).
  rewrite build_add_steps.
  rewrite !close_nested_read_other
    by (rewrite ?(o0_offset setname af remove Hname), ?(o1_offset setname af remove Hname);
        fold A; lia).
  replace (40 + A + Z.of_nat j) with (NL_ALIGN (nlmsg_len (snd o1)) + 4 + Z.of_nat j)
    by (unfold o1, o0, pre; rewrite (addr_attr_offset setname af remove Hname); fold A; lia).
  unfold ad, o1, o0, pre, INADDRSZ. rewrite add_attr_read_payload.
  - change (Z.to_nat 4) with 4%nat. rewrite <- Hl, firstn_all. reflexivity.
  - rewrite length_firstn. change (Z.to_nat 4) with 4%nat. lia.
Qed.

Lemma build_mac_offset : NL_ALIGN (nlmsg_len (msg_prefix mac_cmd af setname)) = 28 + A.
Proof.
  pose proof (A_facts setname Hname).
  rewrite (msg_prefix_len mac_cmd af setname Hname), NL_ALIGN_aligned; fold A; zl.
Qed.

Lemma build_mac_read_eth (j : nat) :
  length eth_addr = 6%nat -> (j < 6)%nat ->
  read (buf (build_mac setname eth_addr af)) (32 + A + Z.of_nat j)
  = Z.land (nth j eth_addr 0) 255.
Proof.
  intros Hl Hj. unfold build_mac, INETHSZ.
  replace (32 + A + Z.of_nat j)
    with (NL_ALIGN (nlmsg_len (msg_prefix mac_cmd af setname)) + 4 + Z.of_nat j)
    by (rewrite build_mac_offset; lia).
  rewrite add_attr_read_payload.
  - change (Z.to_nat 6) with 6%nat. rewrite <- Hl, firstn_all. reflexivity.
  - rewrite length_firstn. change (Z.to_nat 6) with 6%nat. lia.
Qed.

Lemma build_mac_ether_header :
  read16 (buf (build_mac setname eth_addr af)) (28 + A) = 10 /\
  read16 (buf (build_mac setname eth_addr af)) (30 + A) = IPSET_ATTR_ETHER.
Proof.
  unfold build_mac. rewrite <- build_mac_offset. split.
  - rewrite add_attr_nla_len. reflexivity.
  - replace (30 + A) with (28 + A + 2) by lia. rewrite <- build_mac_offset.
    rewrite add_attr_nla_type. reflexivity.
Qed.

Lemma build_mac_range :
  Forall (in_range 4 (38 + A)) (buf (build_mac setname eth_addr af)).
Proof.
  pose proof (A_facts setname Hname). unfold build_mac, INETHSZ.
  apply add_attr_in_bounds; rewrite ?build_mac_offset; try lia.
  apply Forall_impl with (P := in_range 4 (33 + Z.of_nat (strlen setname)));
    [|apply msg_prefix_range].
  intros w. unfold in_range. fold A. lia.
Qed.

End Builders3.

Lemma builder_prefix (s ip e : list Z) (af r : Z) (b : msgbuf) :
  Z.of_nat (strlen s) < IPSET_MAXNAMELEN ->
  b = build_add s ip af r \/ b = build_mac s e af \/ b = build_flush s ->
  exists cmd fam,
    28 + NL_ALIGN (Z.of_nat (strlen s) + 5) <= nlmsg_len b < 256 /\
    forall i, i < 28 + NL_ALIGN (Z.of_nat (strlen s) + 5) ->
      read (buf b) i = read (buf (msg_prefix cmd fam s)) i.
Proof.
  intros Hn Hb. pose proof (A_facts s Hn).
  destruct Hb as [Hb|[Hb|Hb]]; subst b.
  - exists (add_cmd r), af. rewrite (build_add_len s ip af r Hn). split; [lia|].
    apply (build_add_read_prefix s ip af r Hn).
  - exists mac_cmd, af. rewrite (build_mac_len s e af Hn). split; [lia|].
    apply (build_mac_read_prefix s e af Hn).
  - exists flush_cmd, AF_INET. rewrite (build_flush_len s Hn). split; [lia|].
    intros i _. reflexivity.
Qed.

Lemma get32_msg_bytes (b : msgbuf) :
  4 <= nlmsg_len b < 256 -> get32 (msg_bytes b) 0 = nlmsg_len b.
Proof.
  intros H. unfold get32, get16.
  change (Z.to_nat (0 + 1)) with (Z.to_nat 1).
  change (Z.to_nat (0 + 2)) with (Z.to_nat 2).
  change (Z.to_nat (0 + 2 + 1)) with (Z.to_nat 3).
  rewrite !msg_bytes_nth by lia. unfold byte_at.
  change (0 <? 4) with true. change (1 <? 4) with true.
  change (2 <? 4) with true. change (3 <? 4) with true. cbv iota.
  rewrite !Z.shiftr_div_pow2 by lia. rewrite !land_255_mod.
  change (2 ^ (8 * 0)) with 1. change (2 ^ (8 * 1)) with 256.
  change (2 ^ (8 * 2)) with 65536. change (2 ^ (8 * 3)) with 16777216.
  zl.
Qed.

Lemma proto_stage_read (cmd af i : Z) :
  read (buf (add_attr (msg_header cmd af) IPSET_ATTR_PROTOCOL 1 [IPSET_PROTOCOL])) i
  = if i =? 24 then 6 else if i =? 20 then 5 else if i =? 21 then 0
    else if i =? 22 then 1 else if i =? 23 then 0
    else read (buf (msg_header cmd af)) i.
Proof.
  unfold add_attr. cbn [buf]. rewrite msg_header_len.
  change (NL_ALIGN 20) with 20. change (NL_ALIGN sizeof_my_nlattr) with 4.
  change (firstn (Z.to_nat 1) [IPSET_PROTOCOL]) with [IPSET_PROTOCOL].
  cbn [memcpy]. unfold store16, store8. cbn [read].
  repeat (match goal with |- context [?a =? ?b] => destruct (Z.eqb_spec a b) end;
          try (exfalso; lia)); reflexivity.
Qed.

Lemma builder_low_bytes (s ip e : list Z) (af r : Z) (b : msgbuf) :
  Z.of_nat (strlen s) < IPSET_MAXNAMELEN ->
  b = build_add s ip af r \/ b = build_mac s e af \/ b = build_flush s ->
  exists cmd fam,
    28 + NL_ALIGN (Z.of_nat (strlen s) + 5) <= nlmsg_len b < 256 /\
    forall i, i < 28 ->
      read (buf b) i
      = read (buf (add_attr (msg_header cmd fam) IPSET_ATTR_PROTOCOL 1 [IPSET_PROTOCOL])) i.
Proof.
  intros Hn Hb. pose proof (A_facts s Hn).
  destruct (builder_prefix s ip e af r b Hn Hb) as (cmd & fam & Hlen & Hr).
  exists cmd, fam. split; [exact Hlen|].
  intros i Hi. rewrite Hr by lia. apply msg_prefix_read_low. exact Hi.
Qed.

(** X5: the [nlmsg_len] field at the head of each message (bytes 0-3,
    little-endian) equals the number of bytes handed to [sendto]; with [A]
    the aligned size of the set-name attribute, that number is [44 + A] for
    an address, [40 + A] for a hardware address and [28 + A] for a flush. *)
Theorem builders_length_field (s ip e : list Z) (af r : Z) :
  Z.of_nat (strlen s) < IPSET_MAXNAMELEN ->
  let A := NL_ALIGN (Z.of_nat (strlen s) + 5) in
  Z.of_nat (length (msg_bytes (build_add s ip af r))) = 44 + A /\
  Z.of_nat (length (msg_bytes (build_mac s e af))) = 40 + A /\
  Z.of_nat (length (msg_bytes (build_flush s))) = 28 + A /\
  (forall b, b = build_add s ip af r \/ b = build_mac s e af \/ b = build_flush s ->
     get32 (msg_bytes b) 0 = Z.of_nat (length (msg_bytes b))).
Proof.
  intros Hn A. pose proof (A_facts s Hn).
  rewrite !msg_bytes_length.
  rewrite (build_add_len s ip af r Hn), (build_mac_len s e af Hn), (build_flush_len s Hn).
  split; [|split; [|split]]; try (fold A; lia).
  intros b Hb.
  destruct (builder_prefix s ip e af r b Hn Hb) as (cmd & fam & Hlen & _).
  rewrite msg_bytes_length, get32_msg_bytes by lia. lia.
Qed.

Lemma builders_length_field_witness :
  get32 (msg_bytes (build_mac blocklist [2; 0; 0; 0; 0; 1] AF_INET)) 0 = 56.
Proof.
  destruct (builders_length_field blocklist [192; 0; 2; 1] [2; 0; 0; 0; 0; 1] AF_INET 0)
    as (_ & H2 & _ & H4); [vm_compute; reflexivity|].
  rewrite (H4 _ (or_intror (or_introl eq_refl))). exact H2.
Defined.

(** X6: every message of the three builders carries the same fixed fields:
    [nlmsg_flags] is [NLM_F_REQUEST], [nlmsg_seq] and [nlmsg_pid] (bytes
    8-15) are 0, the [nfgenmsg] version is [NFNETLINK_V0] and [res_id] is 0,
    and the first attribute, at offset 20, is [IPSET_ATTR_PROTOCOL] with the
    one-byte payload [IPSET_PROTOCOL]. *)
Theorem builders_fixed_fields (s ip e : list Z) (af r : Z) (b : msgbuf) :
  Z.of_nat (strlen s) < IPSET_MAXNAMELEN ->
  b = build_add s ip af r \/ b = build_mac s e af \/ b = build_flush s ->
  let m := msg_bytes b in
  get16 m 6 = NLM_F_REQUEST /\
  (forall i, 8 <= i < 16 -> nth (Z.to_nat i) m 0 = 0) /\
  nth 17 m 0 = NFNETLINK_V0 /\
  get16 m 18 = 0 /\
  get16 m 22 = IPSET_ATTR_PROTOCOL /\
  attr_payload m 20 = [IPSET_PROTOCOL].
Proof.
  intros Hn Hb m. pose proof (A_facts s Hn).
  destruct (builder_low_bytes s ip e af r b Hn Hb) as (cmd & fam & Hlen & Hr).
  unfold m. split; [|split; [|split; [|split; [|split]]]].
  - rewrite msg_bytes_get16 by lia. unfold read16. rewrite !Hr by lia. reflexivity.
  - intros i Hi. rewrite msg_bytes_read by lia. rewrite Hr by lia.
    rewrite proto_stage_read.
    repeat (rewrite (proj2 (Z.eqb_neq i _)) by lia).
    apply msg_header_zero. exact Hi.
  - change (nth 17 (msg_bytes b) 0) with (nth (Z.to_nat 17) (msg_bytes b) 0).
    rewrite msg_bytes_read by lia. rewrite Hr by lia. reflexivity.
  - rewrite msg_bytes_get16 by lia. unfold read16. rewrite !Hr by lia. reflexivity.
  - rewrite msg_bytes_get16 by lia. unfold read16. rewrite !Hr by lia. reflexivity.
  - apply attr_payload_decode; cbn [length]; try lia.
    + unfold read16. rewrite !Hr by lia. reflexivity.
    + intros j Hj. assert (j = O) as -> by lia. rewrite Hr by lia. reflexivity.
Qed.

Lemma builders_fixed_fields_witness :
  attr_payload (msg_bytes (build_flush blocklist)) 20 = [IPSET_PROTOCOL].
Proof.
  destruct (builders_fixed_fields blocklist [] [] AF_INET 0 (build_flush blocklist))
    as (_ & _ & _ & _ & _ & H); [vm_compute; reflexivity | right; right; reflexivity |].
  exact H.
Defined.

(** X7: a parser of any of the three messages gets the set name back: the
    attribute at offset 28 has type [IPSET_ATTR_SETNAME] and its payload is
    the name up to its terminating NUL, NUL included; the padding bytes
    between the end of that attribute and the next 4-byte boundary are 0
    (the buffer is zero-initialised). *)
Theorem builders_setname_round_trip (s ip e : list Z) (af r : Z) (b : msgbuf) :
  Z.of_nat (strlen s) < IPSET_MAXNAMELEN -> Forall (fun c => 0 <= c < 256) s ->
  b = build_add s ip af r \/ b = build_mac s e af \/ b = build_flush s ->
  let m := msg_bytes b in
  get16 m 30 = IPSET_ATTR_SETNAME /\
  attr_payload m 28 = firstn (strlen s) s ++ [0] /\
  (forall i, 33 + Z.of_nat (strlen s) <= i < 28 + NL_ALIGN (Z.of_nat (strlen s) + 5) ->
     nth (Z.to_nat i) m 0 = 0).
Proof.
  intros Hn Hs Hb m. pose proof (A_facts s Hn). pose proof (strlen_le s).
  destruct (builder_prefix s ip e af r b Hn Hb) as (cmd & fam & Hlen & Hr).
  destruct (msg_prefix_name_header cmd fam s Hn) as [Hh1 Hh2].
  assert (HP : length (firstn (strlen s) s ++ [0]) = S (strlen s))
    by (rewrite length_app, length_firstn; cbn [length]; lia).
  unfold m. split; [|split].
  - rewrite msg_bytes_get16 by lia. unfold read16. rewrite !Hr by lia.
    exact Hh2.
  - apply attr_payload_decode; rewrite ?HP; try lia.
    + unfold read16. rewrite !Hr by lia. unfold read16 in Hh1. lia.
    + intros j Hj. rewrite Hr by lia.
      replace (28 + 4 + Z.of_nat j) with (32 + Z.of_nat j) by lia.
      rewrite msg_prefix_name_read by exact Hj.
      apply land_255_byte.
      apply (proj1 (Forall_forall _ _) (Forall_byte_firstn s (strlen s) Hs)).
      apply nth_In. rewrite HP. exact Hj.
  - intros i Hi. rewrite msg_bytes_read by lia. rewrite Hr by lia.
    apply (read_out_of_range _ _ _ i (msg_prefix_range cmd fam s)). lia.
Qed.

Lemma builders_setname_round_trip_witness :
  attr_payload (msg_bytes (build_add blocklist [192; 0; 2; 1] AF_INET 1)) 28
  = blocklist ++ [0].
Proof.
  destruct (builders_setname_round_trip blocklist [192; 0; 2; 1] [] AF_INET 1
              (build_add blocklist [192; 0; 2; 1] AF_INET 1)) as (_ & H & _).
  - vm_compute. reflexivity.
  - repeat constructor; lia.
  - left. reflexivity.
  - exact H.
Defined.

(** X8: in the message of the address builder, the innermost attribute at
    offset [36 + A] carries the 4 bytes of the [struct in_addr] unchanged,
    whatever the family: its type is [IPSET_ATTR_IPADDR_IPV4] for [AF_INET]
    and [IPSET_ATTR_IPADDR_IPV6] otherwise, with [NLA_F_NET_BYTEORDER]
    set, while its payload stays 4 bytes long ([addrsz = INADDRSZ]). *)
Theorem build_add_address_round_trip (s ip : list Z) (af r : Z) :
  Z.of_nat (strlen s) < IPSET_MAXNAMELEN ->
  length ip = 4%nat -> Forall (fun c => 0 <= c < 256) ip ->
  let m := msg_bytes (build_add s ip af r) in
  let off := 36 + NL_ALIGN (Z.of_nat (strlen s) + 5) in
  get16 m (off + 2)
  = Z.lor (if af =? AF_INET then IPSET_ATTR_IPADDR_IPV4 else IPSET_ATTR_IPADDR_IPV6)
          NLA_F_NET_BYTEORDER /\
  attr_payload m off = ip.
Proof.
  intros Hn Hl Hb m off. pose proof (A_facts s Hn).
  destruct (build_add_addr_attr s ip af r Hn) as [H1 H2].
  pose proof (build_add_len s ip af r Hn) as Hlen.
  unfold m, off. split.
  - rewrite msg_bytes_get16 by lia.
    replace (36 + NL_ALIGN (Z.of_nat (strlen s) + 5) + 2)
      with (38 + NL_ALIGN (Z.of_nat (strlen s) + 5)) by lia.
    rewrite H2. unfold addr_type. destruct (af =? AF_INET); reflexivity.
  - apply attr_payload_decode; rewrite ?Hl; try lia;
      try (rewrite H1; reflexivity).
    intros j Hj.
      replace (36 + NL_ALIGN (Z.of_nat (strlen s) + 5) + 4 + Z.of_nat j)
        with (40 + NL_ALIGN (Z.of_nat (strlen s) + 5) + Z.of_nat j) by lia.
      rewrite (build_add_read_addr s ip af r Hn j Hl Hj).
      apply land_255_byte. apply (proj1 (Forall_forall _ _) Hb).
      apply nth_In. lia.
Qed.

Lemma build_add_address_round_trip_witness :
  attr_payload (msg_bytes (build_add blocklist [192; 0; 2; 1] 10 0)) 52 = [192; 0; 2; 1].
Proof.
  destruct (build_add_address_round_trip blocklist [192; 0; 2; 1] 10 0) as [_ H].
  - vm_compute. reflexivity.
  - reflexivity.
  - repeat constructor; lia.
  - exact H.
Defined.

(** X9: in the message of the hardware-address builder, the attribute at
    offset [28 + A] has type [IPSET_ATTR_ETHER] and carries the 6 bytes of
    the [ether_addr] unchanged; the two padding bytes after it are 0 and
    the message ends there, at [40 + A]. *)
Theorem build_mac_ether_round_trip (s e : list Z) (af : Z) :
  Z.of_nat (strlen s) < IPSET_MAXNAMELEN ->
  length e = 6%nat -> Forall (fun c => 0 <= c < 256) e ->
  let m := msg_bytes (build_mac s e af) in
  let off := 28 + NL_ALIGN (Z.of_nat (strlen s) + 5) in
  get16 m (off + 2) = IPSET_ATTR_ETHER /\
  attr_payload m off = e /\
  nth (Z.to_nat (off + 10)) m 0 = 0 /\ nth (Z.to_nat (off + 11)) m 0 = 0 /\
  Z.of_nat (length m) = off + 12.
Proof.
  intros Hn Hl Hb m off. pose proof (A_facts s Hn).
  destruct (build_mac_ether_header s e af Hn) as [H1 H2].
  pose proof (build_mac_len s e af Hn) as Hlen.
  pose proof (build_mac_range s e af Hn) as Hr.
  unfold m, off. split; [|split; [|split; [|split]]].
  - rewrite msg_bytes_get16 by lia.
    replace (28 + NL_ALIGN (Z.of_nat (strlen s) + 5) + 2)
      with (30 + NL_ALIGN (Z.of_nat (strlen s) + 5)) by lia.
    exact H2.
  - apply attr_payload_decode; rewrite ?Hl; try lia;
      try (rewrite H1; reflexivity).
    intros j Hj.
      replace (28 + NL_ALIGN (Z.of_nat (strlen s) + 5) + 4 + Z.of_nat j)
        with (32 + NL_ALIGN (Z.of_nat (strlen s) + 5) + Z.of_nat j) by lia.
      rewrite (build_mac_read_eth s e af Hn j Hl Hj).
      apply land_255_byte. apply (proj1 (Forall_forall _ _) Hb).
      apply nth_In. lia.
  - rewrite msg_bytes_read by lia. apply (read_out_of_range _ _ _ _ Hr). lia.
  - rewrite msg_bytes_read by lia. apply (read_out_of_range _ _ _ _ Hr). lia.
  - rewrite msg_bytes_length. lia.
Qed.

Lemma build_mac_ether_round_trip_witness :
  attr_payload (msg_bytes (build_mac blocklist [2; 0; 0; 0; 0; 1] AF_INET)) 44
  = [2; 0; 0; 0; 0; 1].
Proof.
  destruct (build_mac_ether_round_trip blocklist [2; 0; 0; 0; 0; 1] AF_INET)
    as (_ & H & _).
  - vm_compute. reflexivity.
  - reflexivity.
  - repeat constructor; lia.
  - exact H.
Defined.

(** ** The dispatch of [add_to_ipset] *)

Lemma build_add_cmd_family (s ip : list Z) (af r : Z) :
  Z.of_nat (strlen s) < IPSET_MAXNAMELEN ->
  get16 (msg_bytes (build_add s ip af r)) 4 = add_cmd r /\
  nth 16 (msg_bytes (build_add s ip af r)) 0 = Z.land af 255.
Proof.
  intros Hn. pose proof (A_facts s Hn). pose proof (build_add_len s ip af r Hn).
  split.
  - rewrite msg_bytes_get16 by lia.
    rewrite (read16_from_read _ (buf (msg_prefix (add_cmd r) af s)))
      by (apply (build_add_read_below s ip af r Hn); lia).
    rewrite msg_prefix_type. apply u16_small.
    unfold add_cmd. destruct (r =? 0); cbn; lia.
  - change (nth 16 (msg_bytes (build_add s ip af r)) 0)
      with (nth (Z.to_nat 16) (msg_bytes (build_add s ip af r)) 0).
    rewrite msg_bytes_read by lia.
    rewrite (build_add_read_below s ip af r Hn) by lia.
    apply msg_prefix_family.
Qed.

(** X10: when [add_to_ipset] is given a valid IPv4 address that
    [inet_aton] parses, and the set name passes the length check, every
    message it sends is an [AF_INET] request whose command follows [flag]:
    [IPSET_CMD_ADD] for 0 and [IPSET_CMD_DEL] for any other value; at least
    one message is sent. *)
Theorem add_to_ipset_ip_command
  (is_valid_ip is_valid_mac : list Z -> bool) (inet_aton ether_aton : list Z -> option (list Z))
  (s val addr : list Z) (flag : Z) (env : list send_result) (p : proc) rv sent p' :
  is_valid_ip val = true -> inet_aton val = Some addr ->
  Z.of_nat (strlen s) < IPSET_MAXNAMELEN ->
  add_to_ipset is_valid_ip is_valid_mac inet_aton ether_aton (Some s) val flag env p
  = Ret rv sent p' ->
  sent <> [] /\
  Forall (fun m => get16 m 4 = Z.lor (if flag =? 0 then IPSET_CMD_ADD else IPSET_CMD_DEL)
                                     (Z.shiftl NFNL_SUBSYS_IPSET 8) /\
                   nth 16 m 0 = AF_INET) sent.
Proof.
  intros Hv Ha Hn H. unfold add_to_ipset, new_add_to_ipset in H.
  rewrite Hv, Ha in H.
  destruct (Z.geb_spec (Z.of_nat (strlen s)) IPSET_MAXNAMELEN); [lia|].
  unfold send_and_report in H.
  destruct (send_loop env _ p) as [[sent0 q]|] eqn:E; [|discriminate].
  inversion H; subst.
  destruct (send_loop_result _ _ _ _ _ E) as (Hne & Hall & _).
  split; [exact Hne|].
  destruct (build_add_cmd_family s addr AF_INET flag Hn) as [H1 H2].
  eapply Forall_impl; [|exact Hall].
  intros m ->. split; [exact H1 | exact H2].
Qed.

Lemma add_to_ipset_ip_command_witness :
  Forall (fun m => get16 m 4 = 1546 /\ nth 16 m 0 = AF_INET) [msg_bytes (build_add blocklist [192; 0; 2; 1] AF_INET 1)].
Proof.
  apply (add_to_ipset_ip_command (fun _ => true) (fun _ => false)
           (fun _ => Some [192; 0; 2; 1]) (fun _ => None) blocklist [49] [192; 0; 2; 1] 1
           [SendOk] {| retries := 0; errno := 0 |} 0
           [msg_bytes (build_add blocklist [192; 0; 2; 1] AF_INET 1)]
           {| retries := 0; errno := 0 |});
    [reflexivity | reflexivity | vm_compute; reflexivity | vm_compute; reflexivity].
Defined.

(** X11: for a value that is not a valid IP address, [add_to_ipset] does
    the same thing whatever [flag] is: a hardware address is always added,
    never removed, and an unclassified value is always refused. *)
Theorem add_to_ipset_flag_ignored_non_ip
  (is_valid_ip is_valid_mac : list Z -> bool) (inet_aton ether_aton : list Z -> option (list Z))
  (setname : cstring) (val : list Z) (flag1 flag2 : Z) (env : list send_result) (p : proc) :
  is_valid_ip val = false ->
  add_to_ipset is_valid_ip is_valid_mac inet_aton ether_aton setname val flag1 env p
  = add_to_ipset is_valid_ip is_valid_mac inet_aton ether_aton setname val flag2 env p.
Proof.
  intros Hv. unfold add_to_ipset. rewrite Hv.
  destruct (is_valid_mac val); [|reflexivity].
  destruct (ether_aton val); reflexivity.
Qed.

Lemma add_to_ipset_flag_ignored_non_ip_witness :
  add_to_ipset (fun _ => false) (fun _ => true) (fun _ => None)
    (fun _ => Some [2; 0; 0; 0; 0; 1]) (Some blocklist) [50] 1 [SendOk]
    {| retries := 0; errno := 0 |}
  = add_to_ipset (fun _ => false) (fun _ => true) (fun _ => None)
    (fun _ => Some [2; 0; 0; 0; 0; 1]) (Some blocklist) [50] 0 [SendOk]
    {| retries := 0; errno := 0 |}.
Proof. apply add_to_ipset_flag_ignored_non_ip. reflexivity. Defined.



(** X13: [NL_ALIGN x] is the least multiple of 4 that is at least [x]. *)
Theorem NL_ALIGN_least (x : Z) :
  NL_ALIGN x mod 4 = 0 /\ x <= NL_ALIGN x /\
  (forall y, y mod 4 = 0 -> x <= y -> NL_ALIGN x <= y).
Proof.
  split; [|split].
  - apply NL_ALIGN_bounds.
  - apply NL_ALIGN_bounds.
  - intros y Hy Hxy. rewrite NL_ALIGN_div. Z.div_mod_to_equations. lia.
Qed.
